(** * Stellar Smart MCP: tool synthesis, call classification and the per-user store

    A shallow embedding of the MCP agent ([MyMCP.init], the synthesized
    contract-function tools and the fixed tools), of the token deployment
    routine ([deployNewFungiblePausableToken]) and of the Durable Object
    store ([StellarMCPStore]), followed by the properties the design
    document states about them. *)

From Stdlib Require Import List NArith ZArith Arith Bool Ascii String Lia Permutation.
Import ListNotations.

(** ** JavaScript strings

    A JavaScript string is a sequence of UTF-16 code units; [substring],
    [includes], [replace] and a regular expression without the [u] flag all
    work on code units. *)

Definition jsstring := list N.

Definition js (s : string) : jsstring :=
  map N_of_ascii (list_ascii_of_string s).

Definition jsstring_eq_dec : forall a b : jsstring, {a = b} + {a <> b} :=
  list_eq_dec N.eq_dec.

Definition jsstring_eqb (a b : jsstring) : bool :=
  if jsstring_eq_dec a b then true else false.

(** [s.startsWith(p)] *)
Fixpoint startsWith (s p : jsstring) {struct p} : bool :=
  match p, s with
  | [], _ => true
  | _ :: _, [] => false
  | a :: p', b :: s' => N.eqb a b && startsWith s' p'
  end.

(** [s.includes(p)] *)
Fixpoint includes (s p : jsstring) : bool :=
  startsWith s p ||
  match s with
  | [] => false
  | _ :: s' => includes s' p
  end.

(** [s.replace(p, r)] with a string pattern [p] (and a replacement without
    [$] patterns): only the first occurrence is replaced. *)
Fixpoint replace_first (s p r : jsstring) : jsstring :=
  if startsWith s p then r ++ skipn (List.length p) s
  else match s with
       | [] => []
       | c :: s' => c :: replace_first s' p r
       end.

(** [s.substring(0, n)] *)
Definition substring0 (n : nat) (s : jsstring) : jsstring := firstn n s.

(** The character class [[a-zA-Z0-9_-]]. *)
Definition tool_char (c : N) : bool :=
  ((97 <=? c) && (c <=? 122)        (* a-z *)
   || (65 <=? c) && (c <=? 90)      (* A-Z *)
   || (48 <=? c) && (c <=? 57)      (* 0-9 *)
   || (c =? 95)                     (* _ *)
   || (c =? 45))%N.                 (* - *)

Definition underscore : N := 95%N.

(** [s.replace(/[^a-zA-Z0-9_-]/g, '_')] *)
Definition replace_unsafe (s : jsstring) : jsstring :=
  map (fun c => if tool_char c then c else underscore) s.

(** The tool name of a contract function, [MyMCP.init]:
<<
  let toolName = `${contract_name}: ${func_name}`;
  toolName = toolName.replace(/[^a-zA-Z0-9_-]/g, '_').substring(0, 64);
  toolName = toolName.replace('__', '_');
>> *)
Definition toolName (contract_name func_name : jsstring) : jsstring :=
  let toolName := contract_name ++ js ": " ++ func_name in
  let toolName := substring0 64 (replace_unsafe toolName) in
  replace_first toolName (js "__") (js "_").

(** ** Exceptions, results and values

    Fallible code returns a [Result]: a value, or the exception it threw. *)

Inductive Exn : Type :=
| OneRowExpected (found : nat)   (* [cursor.one()] on a result that has not exactly one row *)
| InvalidAddress (s : jsstring)  (* [new Address(s)] on a malformed address *)
| LedgerError (diag : jsstring)  (* the ledger RPC: code lookup, simulation *)
| DecodeError (diag : jsstring)  (* XDR or JSON decoding *)
| SignError (diag : jsstring)    (* signing the authorization entries *)
| RelayError (diag : jsstring)   (* the relay refused the submission *)
| AlreadyRegistered (tool : jsstring). (* [server.tool] with a name in use *)

Inductive Result (A : Type) : Type :=
| Return (a : A)
| Throw (e : Exn).

Arguments Return {A} a.
Arguments Throw {A} e.

(** ** Values of the store's columns

    The columns [login] and [name] are declared [STRING], which gives them
    numeric affinity: a bound text that is a well-formed number is stored,
    compared and read back as that number, and any other text as the text
    it is.  The columns [address] and [sk] are declared the same way, but
    they only ever receive what [Address.toString] and [Keypair.secret]
    return: strkeys, texts that begin with a letter, which the column
    keeps as they are. *)
Inductive SqlValue : Type :=
| SqlText (s : jsstring)
| SqlNumber (numeral : jsstring).   (* a number, by its canonical numeral *)

Definition sql_eqb (a b : SqlValue) : bool :=
  match a, b with
  | SqlText s, SqlText t => jsstring_eqb s t
  | SqlNumber m, SqlNumber n => jsstring_eqb m n
  | _, _ => false
  end.

(** JavaScript values that reach [JSON.stringify], kept symbolic. *)
#[warnings="-register-all"] Inductive JsValue : Type :=
| JStr (s : jsstring)
| JOpaque (s : jsstring)                            (* a value a collaborator returned *)
| JErr (e : Exn)                                    (* a caught exception *)
| JPairs (rows : list (SqlValue * jsstring))        (* an array of [name, address] arrays *)
| JObj (fields : list (jsstring * JsValue))         (* an object literal *)
| JSpread (base : JsValue) (fields : list (jsstring * JsValue)). (* [{...base, fields}] *)

(** The [text] of a content item: a string built in place, or the outcome
    of [JSON.stringify]. *)
Inductive Text : Type :=
| Plain (s : jsstring)
| Stringify (v : JsValue).

Record Content : Type := { type : jsstring; text : Text }.

(** The response envelope a tool handler returns. *)
Record Envelope : Type := { content : list Content }.

Definition text_envelope (t : Text) : Envelope :=
  {| content := [ {| type := js "text"; text := t |} ] |}.

(** ** Ledger data *)

(** An XDR value ([xdr.ScVal]), by its encoding. *)
Definition ScVal := jsstring.

(** The arguments of the token contract's [__constructor], as
    [Client.deploy] of the generated SDK takes them. *)
Record DeployArgs : Type := {
  owner : jsstring;
  name : jsstring;
  symbol : jsstring;
  decimals : Z;
  initial_supply : Z;
  cap : Z
}.

(** What the handlers read of an [AssembledTransaction] once it is built
    and simulated; signing updates the object in place. *)
Record AssembledTransaction : Type := {
  isReadCall : bool;
  needsNonInvokerSigningBy : list jsstring;
  retval : ScVal;                     (* [simulationData.result.retval] *)
  signedBy : list jsstring            (* keys whose signature is attached *)
}.

(** One entry point of a contract's interface. *)
Record FuncInput : Type := {
  input_name : jsstring;
  input_doc : jsstring;
  input_type : jsstring
}.

Record Func : Type := {
  func_name : jsstring;
  func_doc : jsstring;
  func_inputs : list FuncInput
}.

(** [Client.fromWasm(wasm, {contractId, ...})] *)
Record Client : Type := {
  options_contractId : jsstring;
  spec_funcs : list Func
}.

(** ** Outbound calls

    Every call that leaves the worker is recorded, in order. *)
Inductive NetCall : Type :=
| GetContractWasm (contractId : jsstring)
| Simulate (contractAddress functionName : jsstring) (args : list ScVal)
| SimulateDeploy (args : DeployArgs) (source : jsstring)
| WalletSign (walletContract sk : jsstring)
| SignAuthEntries (address : jsstring)
| RelaySend (tx : AssembledTransaction).

(** A submission is a call to the relay. *)
Definition is_submission (c : NetCall) : bool :=
  match c with
  | RelaySend _ => true
  | _ => false
  end.


(** ** Rows of the store's tables *)

Record AddressRow : Type := {
  a_login : SqlValue;
  a_address : jsstring;
  a_sk : jsstring
}.

Record ContractRow : Type := {
  c_login : SqlValue;
  c_name : SqlValue;
  c_address : jsstring
}.

(** ** Collaborators

    The libraries and services the worker calls: the Stellar SDK, the
    ledger RPC, the passkey wallet, the relay and the SQL engine of the
    Durable Object.  Their answers are not decided by this repository. *)
Record Collaborators : Type := {
  (* [new Address(s).toString()] *)
  Address_toString : jsstring -> Result jsstring;
  (* [Keypair.random().secret()], by the entropy consumed *)
  Keypair_random_secret : nat -> jsstring;
  (* [Keypair.fromSecret(sk).publicKey()] *)
  Keypair_publicKey : jsstring -> Result jsstring;
  (* [rpc(env).getContractWasmByContractId(contractId)] *)
  getContractWasmByContractId : jsstring -> Result jsstring;
  (* [Client.fromWasm(wasm, ...)]: the functions of the interface *)
  Client_fromWasm : jsstring -> Result (list Func);
  (* [AssembledTransaction.buildWithOp(invokeHostFunction ...)] *)
  buildWithOp : jsstring -> jsstring -> list ScVal -> Result AssembledTransaction;
  (* [decode("ScVal", retval.toXDR('base64'))] *)
  decode_ScVal : ScVal -> Result jsstring;
  (* [JSON.parse(json)] *)
  JSON_parse : jsstring -> Result JsValue;
  (* [wallet.sign(at, {keypair})] with [wallet.wallet] bound to the address *)
  wallet_sign : AssembledTransaction -> jsstring -> jsstring -> Result AssembledTransaction;
  (* [server.send(at)] *)
  server_send : AssembledTransaction -> Result JsValue;
  (* the public key of the module's deployment keypair *)
  publicKey : jsstring;
  (* [Client.deploy(args, {address, ...})] of the token SDK *)
  Client_deploy : DeployArgs -> jsstring -> Result AssembledTransaction;
  (* [at.signAuthEntries({address, signAuthEntry})] *)
  signAuthEntries : AssembledTransaction -> jsstring -> Result AssembledTransaction;
  (* [StrKey.encodeContract(retval.address().contractId())] *)
  encodeContract : ScVal -> Result jsstring;
  (* the value a column declared [STRING] holds for a bound text *)
  affinity : jsstring -> SqlValue;
  (* [String(x)] of a number read back from a column *)
  Number_toString : jsstring -> jsstring;
  (* the order in which a [SELECT] without [ORDER BY] returns the rows it
     matches: some order of exactly these rows *)
  query_order : list ContractRow -> list ContractRow;
  query_order_permutes : forall rows, Permutation (query_order rows) rows
}.

(** A value read from a column, as a template literal prints it: a text
    as it is, a number by its [String()]. *)
Definition read (ext : Collaborators) (v : SqlValue) : jsstring :=
  match v with
  | SqlText s => s
  | SqlNumber n => Number_toString ext n
  end.

(** ** The store ([StellarMCPStore])

    Two tables.  [addresses] has [login] as its primary key; [contracts]
    is [UNIQUE (login, address)].  Keys conflict, and [WHERE login = ?1]
    matches, by the stored value of the login. *)
Record Store : Type := {
  addresses : list AddressRow;
  contracts : list ContractRow
}.

Definition empty_store : Store := {| addresses := []; contracts := [] |}.

(** [cursor.one()]: the row when there is exactly one, an exception
    otherwise. *)
Definition one {A : Type} (rows : list A) : Result A :=
  match rows with
  | [r] => Return r
  | _ => Throw (OneRowExpected (List.length rows))
  end.

Definition bindR {A B : Type} (r : Result A) (k : A -> Result B) : Result B :=
  match r with
  | Return a => k a
  | Throw e => Throw e
  end.

Section StoreOps.
Variable ext : Collaborators.

(** [INSERT OR IGNORE INTO contracts (login, name, address)] *)
Definition insert_or_ignore_contract (row : ContractRow) (st : Store) : Store :=
  if existsb (fun r => sql_eqb (c_login r) (c_login row)
                       && jsstring_eqb (c_address r) (c_address row))
             (contracts st)
  then st
  else {| addresses := addresses st; contracts := contracts st ++ [row] |}.

(** [INSERT OR IGNORE INTO addresses (login, address, sk)] *)
Definition insert_or_ignore_address (row : AddressRow) (st : Store) : Store :=
  if existsb (fun r => sql_eqb (a_login r) (a_login row)) (addresses st)
  then st
  else {| addresses := addresses st ++ [row]; contracts := contracts st |}.

Definition addContract (login name address : jsstring) (st : Store) : Result Store :=
  bindR (Address_toString ext address) (fun contract =>
  Return (insert_or_ignore_contract
            {| c_login := affinity ext login; c_name := affinity ext name;
               c_address := contract |} st)).

Definition removeContract (login address : jsstring) (st : Store) : Result Store :=
  bindR (Address_toString ext address) (fun contract =>
  Return {| addresses := addresses st;
            contracts :=
              filter (fun r => negb (sql_eqb (c_login r) (affinity ext login)
                                     && jsstring_eqb (c_address r) contract))
                     (contracts st) |}).

Definition getContracts (login : jsstring) (st : Store) : list (SqlValue * jsstring) :=
  map (fun row => (c_name row, c_address row))
      (query_order ext
         (filter (fun r => sql_eqb (c_login r) (affinity ext login)) (contracts st))).

(** [entropy] is what [Keypair.random()] draws from. *)
Definition setAddress (login wallet : jsstring) (entropy : nat) (st : Store) : Result Store :=
  bindR (Address_toString ext wallet) (fun address =>
  Return (insert_or_ignore_address
            {| a_login := affinity ext login; a_address := address;
               a_sk := Keypair_random_secret ext entropy |} st)).

Definition getAddress (login : jsstring) (st : Store) : Result (jsstring * jsstring) :=
  bindR (one (filter (fun r => sql_eqb (a_login r) (affinity ext login)) (addresses st)))
        (fun row => Return (a_address row, a_sk row)).
End StoreOps.

(** ** Tools *)

(** What a registered handler is bound to. *)
Inductive Handler : Type :=
| ContractFunction (contractId func_name : jsstring)
| SetContractAddress
| GetContractAddresses
| RemoveContractAddress
| SetWallet
| GetWallet
| DeployToken.

(** A schema entry: [z.string().describe(doc)], with its transform. *)
Inductive Transform : Type :=
| NoTransform
| NativeToScVal (ty : jsstring)    (* [contract.spec.nativeToScVal(val, input.type())] *)
| ToBigInt.                        (* [BigInt(val)] *)

Record Param : Type := { describe : jsstring; transform : Transform }.

Record Tool : Type := {
  tool_name : jsstring;
  tool_description : jsstring;
  tool_params : list (jsstring * Param);
  tool_handler : Handler
}.

(** [params.set(k, v)] on a [Map]: an existing key keeps its place. *)
Fixpoint Map_set (k : jsstring) (v : Param) (m : list (jsstring * Param))
  : list (jsstring * Param) :=
  match m with
  | [] => [(k, v)]
  | (k', v') :: m' =>
      if jsstring_eqb k' k then (k, v) :: m' else (k', v') :: Map_set k v m'
  end.

(** ** The worker's state and its computations *)

Record World : Type := {
  store : Store;                 (* the Durable Object's tables *)
  entropy : nat;                 (* what [Keypair.random()] has consumed *)
  calls : list NetCall;          (* outbound calls so far, oldest first *)
  tools : list Tool              (* [this.server]'s registered tools *)
}.

Definition M (A : Type) : Type := World -> Result A * World.

Definition ret {A : Type} (a : A) : M A := fun w => (Return a, w).

Definition throw {A : Type} (e : Exn) : M A := fun w => (Throw e, w).

Definition bind {A B : Type} (m : M A) (k : A -> M B) : M B :=
  fun w =>
    match m w with
    | (Return a, w') => k a w'
    | (Throw e, w') => (Throw e, w')
    end.

(** [try { m } catch (err) { h err }] *)
Definition try_catch {A : Type} (m : M A) (h : Exn -> M A) : M A :=
  fun w =>
    match m w with
    | (Return a, w') => (Return a, w')
    | (Throw e, w') => h e w'
    end.

(** A call whose promise is dropped: its exception reaches nobody. *)
Definition not_awaited {A : Type} (m : M A) : M unit :=
  fun w => (Return tt, snd (m w)).

Definition lift {A : Type} (r : Result A) : M A := fun w => (r, w).

Definition call (c : NetCall) : M unit :=
  fun w => (Return tt, {| store := store w; entropy := entropy w;
                          calls := calls w ++ [c]; tools := tools w |}).

Definition with_store {A : Type} (f : Store -> Result (A * Store)) : M A :=
  fun w =>
    match f (store w) with
    | Return (a, st) => (Return a, {| store := st; entropy := entropy w;
                                      calls := calls w; tools := tools w |})
    | Throw e => (Throw e, w)
    end.

(** [this.server.tool(name, description, schema, handler)]: the registry
    refuses a name it already holds. *)
Definition server_tool (t : Tool) : M unit :=
  fun w =>
    if existsb (fun t' => jsstring_eqb (tool_name t') (tool_name t)) (tools w)
    then (Throw (AlreadyRegistered (tool_name t)), w)
    else (Return tt, {| store := store w; entropy := entropy w;
                        calls := calls w; tools := tools w ++ [t] |}).

Declare Scope m_scope.
Delimit Scope m_scope with M.
Notation "x <- m ;; k" := (bind m (fun x => k))
  (at level 61, m at next level, right associativity) : m_scope.
Notation "m ;;; k" := (bind m (fun _ => k))
  (at level 61, right associativity) : m_scope.
Open Scope m_scope.

Section Worker.
Variable ext : Collaborators.
(** [this.props.login] *)
Variable login : jsstring.

(** *** The store behind its stub *)

Definition stub_getContracts : M (list (SqlValue * jsstring)) :=
  with_store (fun st => Return (getContracts ext login st, st)).

Definition stub_addContract (name address : jsstring) : M unit :=
  with_store (fun st => bindR (addContract ext login name address st)
                              (fun st' => Return (tt, st'))).

Definition stub_removeContract (address : jsstring) : M unit :=
  with_store (fun st => bindR (removeContract ext login address st)
                              (fun st' => Return (tt, st'))).

Definition stub_getAddress : M (jsstring * jsstring) :=
  with_store (fun st => bindR (getAddress ext login st)
                              (fun r => Return (r, st))).

(** [Keypair.random()] is evaluated once the address has parsed. *)
Definition stub_setAddress (wallet : jsstring) : M unit :=
  fun w =>
    match setAddress ext login wallet (entropy w) (store w) with
    | Return st => (Return tt, {| store := st; entropy := S (entropy w);
                                  calls := calls w; tools := tools w |})
    | Throw e => (Throw e, w)
    end.

(** *** The handler of a synthesized contract-function tool

    The transaction is built and simulated, its return value decoded, and
    only then does the handler branch on [at.isReadCall].  The two
    [console.log] lines read [at.isReadCall] and
    [at.needsNonInvokerSigningBy()] before the branch; a simulation that
    failed makes these reads throw, which is [buildWithOp] answering
    [Throw] here.  In the other branch [Keypair.fromSecret(sk)] is
    evaluated before [wallet.sign] is called, and [JSON.parse(json)] after
    [server.send] has returned. *)

Definition contract_function_handler
           (contractId func_name : jsstring) (params : list ScVal) : M Envelope :=
  try_catch
    (contractAddress <- lift (Address_toString ext contractId) ;;
     call (Simulate contractAddress func_name params) ;;;
     at_ <- lift (buildWithOp ext contractAddress func_name params) ;;
     json <- lift (decode_ScVal ext (retval at_)) ;;
     if isReadCall at_ then
       ret (text_envelope (Plain json))
     else
       address_sk <- stub_getAddress ;;
       let '(address, sk) := address_sk in
       _ <- lift (Keypair_publicKey ext sk) ;;
       call (WalletSign address sk) ;;;
       at_ <- lift (wallet_sign ext at_ address sk) ;;
       call (RelaySend at_) ;;;
       res <- lift (server_send ext at_) ;;
       result <- lift (JSON_parse ext json) ;;
       ret (text_envelope
              (Stringify (JObj [(js "result", result); (js "success", res)]))))
    (fun err => ret (text_envelope (Stringify (JErr err)))).

(** *** Session initialization: the tools of the tracked contracts *)

Definition func_params (func : Func) : list (jsstring * Param) :=
  fold_left
    (fun params input =>
       Map_set (input_name input)
               {| describe := input_doc input;
                  transform := NativeToScVal (input_type input) |}
               params)
    (func_inputs func) [].

Definition register_func (contract_name : jsstring) (contract : Client) (func : Func)
  : M unit :=
  if includes (func_name func) (js "__") then ret tt
  else
    server_tool
      {| tool_name := toolName contract_name (func_name func);
         tool_description := func_doc func;
         tool_params := func_params func;
         tool_handler :=
           ContractFunction (options_contractId contract) (func_name func) |}.

Fixpoint register_funcs (contract_name : jsstring) (contract : Client)
         (funcs : list Func) : M unit :=
  match funcs with
  | [] => ret tt
  | func :: rest =>
      register_func contract_name contract func ;;;
      register_funcs contract_name contract rest
  end.

(** The body of [for (let [contract_name, contractId] of contractIds)];
    [None] from the fetch is the [catch { continue }].  [contract_name] is
    what the [name] column gave back; the loop uses it in the template
    literal of the tool name and nowhere else. *)
Definition register_contract (entry : SqlValue * jsstring) : M unit :=
  let '(contract_name, contractId) := entry in
  wasm <- try_catch
            (call (GetContractWasm contractId) ;;;
             wasm <- lift (getContractWasmByContractId ext contractId) ;;
             ret (Some wasm))
            (fun _ => ret None) ;;
  match wasm with
  | None => ret tt
  | Some wasm =>
      funcs <- lift (Client_fromWasm ext wasm) ;;
      let contract := {| options_contractId := contractId; spec_funcs := funcs |} in
      register_funcs (read ext contract_name) contract (spec_funcs contract)
  end.

Fixpoint register_contracts (contractIds : list (SqlValue * jsstring)) : M unit :=
  match contractIds with
  | [] => ret tt
  | entry :: rest => register_contract entry ;;; register_contracts rest
  end.
End Worker.

(** ** Token deployment ([deployNewFungiblePausableToken]) *)

Section Deployment.
Variable ext : Collaborators.

Definition deployNewFungiblePausableToken
           (owner name symbol : jsstring) (initial_supply cap : Z) : M JsValue :=
  let args := {| owner := owner; name := name; symbol := symbol; decimals := 0;
                 initial_supply := initial_supply; cap := cap |} in
  call (SimulateDeploy args (publicKey ext)) ;;;
  at_ <- lift (Client_deploy ext args (publicKey ext)) ;;
  call (SignAuthEntries (publicKey ext)) ;;;
  at_ <- lift (signAuthEntries ext at_ (publicKey ext)) ;;
  call (RelaySend at_) ;;;
  res <- lift (server_send ext at_) ;;
  contractId <- lift (encodeContract ext (retval at_)) ;;
  ret (JSpread res [(js "contractId", JStr contractId)]).
End Deployment.

(** ** The fixed tools and [MyMCP.init] *)

(** In JavaScript every object is truthy, an array included, and the
    array [getAddress] returns has two elements. *)
Definition truthy (address_sk : jsstring * jsstring) : bool := true.

Definition array_length (address_sk : jsstring * jsstring) : nat := 2.

Definition no_wallet_envelope : Envelope :=
  text_envelope (Plain (js "No wallet address set")).

(** A tool call, with the arguments its schema has produced. *)
Inductive Invocation : Type :=
| CallContractFunction (contractId func_name : jsstring) (params : list ScVal)
| CallSetContractAddress (name address : jsstring)
| CallGetContractAddresses
| CallRemoveContractAddress (address : jsstring)
| CallSetWallet (wallet : jsstring)
| CallGetWallet
| CallDeployToken (name symbol : jsstring) (initial_supply cap : Z).

Definition handler_of (i : Invocation) : Handler :=
  match i with
  | CallContractFunction contractId func_name _ => ContractFunction contractId func_name
  | CallSetContractAddress _ _ => SetContractAddress
  | CallGetContractAddresses => GetContractAddresses
  | CallRemoveContractAddress _ => RemoveContractAddress
  | CallSetWallet _ => SetWallet
  | CallGetWallet => GetWallet
  | CallDeployToken _ _ _ _ => DeployToken
  end.

Section FixedTools.
Variable ext : Collaborators.
Variable login : jsstring.

Definition setContractAddress_handler (name address : jsstring) : M Envelope :=
  address_sk <- stub_getAddress ext login ;;
  if negb (truthy address_sk) then ret no_wallet_envelope
  else
    let '(_address, sk) := address_sk in
    stub_addContract ext login name address ;;;
    publicKey <- lift (Keypair_publicKey ext sk) ;;
    ret (text_envelope
           (Stringify
              (JObj
                 [(js "message", JStr (js "Success! Now reload to see your new tools"));
                  (js "instructions",
                   JStr (js "Open the link to add a policy signer to sign transactions for this "
                         ++ address ++ js " contract"));
                  (js "link",
                   JStr (js "https://superpeach.xyz/add-signer?publicKey=" ++ publicKey
                         ++ js "&signerLimits=" ++ address))]))).

Definition getContractAddresses_handler : M Envelope :=
  contracts <- stub_getContracts ext login ;;
  ret (text_envelope (Stringify (JPairs contracts))).

Definition removeContractAddress_handler (address : jsstring) : M Envelope :=
  not_awaited (stub_removeContract ext login address) ;;;
  ret (text_envelope (Plain (js "Success! Now reload to see your new tools"))).

Definition setWallet_handler (wallet : jsstring) : M Envelope :=
  not_awaited (stub_setAddress ext login wallet) ;;;
  ret (text_envelope (Plain (js "Wallet address set to " ++ wallet))).

Definition getWallet_handler : M Envelope :=
  address_sk <- stub_getAddress ext login ;;
  if negb (Nat.eqb (array_length address_sk) 0) then
    let '(address, _sk) := address_sk in
    ret (text_envelope (Plain (js "Wallet address is " ++ address)))
  else ret no_wallet_envelope.

Definition deployToken_handler (name symbol : jsstring) (initial_supply cap : Z)
  : M Envelope :=
  try_catch
    (address_sk <- stub_getAddress ext login ;;
     if negb (truthy address_sk) then ret no_wallet_envelope
     else
       let '(address, _sk) := address_sk in
       res <- deployNewFungiblePausableToken ext address name symbol initial_supply cap ;;
       ret (text_envelope (Stringify res)))
    (fun err => ret (text_envelope (Stringify (JErr err)))).

(** What the registry runs when a tool is called. *)
Definition invoke (i : Invocation) : M Envelope :=
  match i with
  | CallContractFunction contractId func_name params =>
      contract_function_handler ext login contractId func_name params
  | CallSetContractAddress name address => setContractAddress_handler name address
  | CallGetContractAddresses => getContractAddresses_handler
  | CallRemoveContractAddress address => removeContractAddress_handler address
  | CallSetWallet wallet => setWallet_handler wallet
  | CallGetWallet => getWallet_handler
  | CallDeployToken name symbol initial_supply cap =>
      deployToken_handler name symbol initial_supply cap
  end.

Definition string_param (doc : string) : Param :=
  {| describe := js doc; transform := NoTransform |}.

Definition fixed_tools : list Tool :=
  [ {| tool_name := js "setContractAddress";
       tool_description := js "Add a new contract address to track";
       tool_params := [(js "name", string_param "The name of the contract");
                       (js "address", string_param "The contract address to add")];
       tool_handler := SetContractAddress |};
    {| tool_name := js "getContractAddresses";
       tool_description := js "Get all contract addresses for the user";
       tool_params := [];
       tool_handler := GetContractAddresses |};
    {| tool_name := js "removeContractAddress";
       tool_description := js "Remove a contract address from the user";
       tool_params := [(js "address", string_param "The contract address to remove")];
       tool_handler := RemoveContractAddress |};
    {| tool_name := js "setWallet";
       tool_description := js "Set your Stellar wallet address";
       tool_params := [(js "wallet", string_param "The wallet address to set")];
       tool_handler := SetWallet |};
    {| tool_name := js "getWallet";
       tool_description := js "Get your Stellar wallet address";
       tool_params := [];
       tool_handler := GetWallet |};
    {| tool_name := js "deployToken";
       tool_description := js "Deploy a new token contract";
       tool_params := [(js "name", string_param "The name of the token");
                       (js "symbol", string_param "The symbol of the token");
                       (js "initial_supply",
                        {| describe := js "The initial supply of the token";
                           transform := ToBigInt |});
                       (js "cap",
                        {| describe := js "The cap of the token";
                           transform := ToBigInt |})];
       tool_handler := DeployToken |} ].

Fixpoint register_all (ts : list Tool) : M unit :=
  match ts with
  | [] => ret tt
  | t :: rest => server_tool t ;;; register_all rest
  end.

Definition init : M unit :=
  contractIds <- stub_getContracts ext login ;;
  register_contracts ext contractIds ;;;
  register_all fixed_tools.
End FixedTools.

(** ** A concrete deployment, for running the model

    A token contract with a read function, a transfer that needs the
    signature of its [from] account, a counter that writes without asking
    anybody and its constructor; one contract whose code cannot be found. *)

Definition demo_funcs : list Func :=
  [ {| func_name := js "balance"; func_doc := js "Gets the token balance";
       func_inputs := [ {| input_name := js "account"; input_doc := js "";
                           input_type := js "Address" |} ] |};
    {| func_name := js "transfer"; func_doc := js "Transfers tokens";
       func_inputs := [ {| input_name := js "from"; input_doc := js "";
                           input_type := js "Address" |};
                        {| input_name := js "to"; input_doc := js "";
                           input_type := js "Address" |};
                        {| input_name := js "amount"; input_doc := js "";
                           input_type := js "i128" |} ] |};
    {| func_name := js "bump"; func_doc := js "Increments a counter";
       func_inputs := [] |};
    {| func_name := js "__constructor"; func_doc := js "Initializes a new token";
       func_inputs := [] |} ].

Definition demo_simulation (functionName : jsstring) : AssembledTransaction :=
  if jsstring_eqb functionName (js "balance") then
    {| isReadCall := true; needsNonInvokerSigningBy := [];
       retval := js "42"; signedBy := [] |}
  else if jsstring_eqb functionName (js "transfer") then
    {| isReadCall := false; needsNonInvokerSigningBy := [js "CWALLET"];
       retval := js "null"; signedBy := [] |}
  else
    {| isReadCall := false; needsNonInvokerSigningBy := [];
       retval := js "7"; signedBy := [] |}.

Definition demo_address (s : jsstring) : Result jsstring :=
  if startsWith s (js "C") || startsWith s (js "G") then Return s
  else Throw (InvalidAddress s).

(** The column of the concrete deployment recognizes the numerals the
    examples below use, unsigned decimal integers of at most 15 digits:
    "007" is the number 7.  Every other text it keeps; the examples bind
    no signed, fractional or longer numeral.  Its [SELECT] answers in the
    order of the table, which for the stores of the examples is also the
    order of the [(login, address)] index. *)
Definition is_digit (c : N) : bool := ((48 <=? c) && (c <=? 57))%N.

Fixpoint strip_zeros (s : jsstring) : jsstring :=
  match s with
  | [] => []
  | c :: rest =>
      match rest with
      | [] => s
      | _ :: _ => if N.eqb c 48 then strip_zeros rest else s
      end
  end.

Definition demo_affinity (text : jsstring) : SqlValue :=
  match text with
  | [] => SqlText text
  | _ :: _ =>
      if forallb is_digit text && Nat.leb (List.length text) 15
      then SqlNumber (strip_zeros text)
      else SqlText text
  end.

Definition demo : Collaborators :=
  {| Address_toString := demo_address;
     Keypair_random_secret := fun n => js "S" ++ repeat 65%N n;
     Keypair_publicKey := fun sk => Return (js "G" ++ sk);
     getContractWasmByContractId :=
       fun c => if jsstring_eqb c (js "CBROKEN")
                then Throw (LedgerError (js "not found")) else Return c;
     Client_fromWasm := fun _ => Return demo_funcs;
     buildWithOp := fun _ f _ => Return (demo_simulation f);
     decode_ScVal := fun v => Return v;
     JSON_parse := fun s => Return (JOpaque s);
     wallet_sign :=
       fun tx a _ => Return {| isReadCall := isReadCall tx;
                               needsNonInvokerSigningBy := needsNonInvokerSigningBy tx;
                               retval := retval tx; signedBy := a :: signedBy tx |};
     server_send := fun _ => Return (JOpaque (js "ok"));
     publicKey := js "GDEPLOYER";
     Client_deploy :=
       fun _ _ => Return {| isReadCall := false; needsNonInvokerSigningBy := [];
                            retval := js "CNEW"; signedBy := [] |};
     signAuthEntries :=
       fun tx a => Return {| isReadCall := isReadCall tx;
                             needsNonInvokerSigningBy := needsNonInvokerSigningBy tx;
                             retval := retval tx; signedBy := a :: signedBy tx |};
     encodeContract := fun v => Return v;
     affinity := demo_affinity;
     Number_toString := fun numeral => numeral;
     query_order := fun rows => rows;
     query_order_permutes := fun rows => Permutation_refl rows |}.

Definition world_of (st : Store) : World :=
  {| store := st; entropy := 0; calls := []; tools := [] |}.

Definition fresh_world : World := world_of empty_store.

(** A user with a wallet who tracks a working and a broken contract. *)
Definition alice_store : Store :=
  {| addresses := [ {| a_login := SqlText (js "alice"); a_address := js "CWALLET";
                       a_sk := js "SALICE" |} ];
     contracts := [ {| c_login := SqlText (js "alice"); c_name := SqlText (js "Broken");
                       c_address := js "CBROKEN" |};
                    {| c_login := SqlText (js "alice"); c_name := SqlText (js "Token");
                       c_address := js "CTOKEN" |} ] |}.

(** The tools synthesized for one contract's functions. *)
Definition synthesized (contract_name contractId : jsstring) (funcs : list Func)
  : list Tool :=
  map (fun func =>
         {| tool_name := toolName contract_name (func_name func);
            tool_description := func_doc func;
            tool_params := func_params func;
            tool_handler := ContractFunction contractId (func_name func) |})
      (filter (fun func => negb (includes (func_name func) (js "__"))) funcs).

(** The functions of a tracked contract as session initialization sees
    them: none when its code cannot be fetched. *)
Definition descriptor (ext : Collaborators) (contractId : jsstring) : Result (list Func) :=
  match getContractWasmByContractId ext contractId with
  | Return wasm => Client_fromWasm ext wasm
  | Throw _ => Return []
  end.

Definition add_tools (ts : list Tool) (w : World) : World :=
  {| store := store w; entropy := entropy w; calls := calls w; tools := tools w ++ ts |}.

Definition add_calls (cs : list NetCall) (w : World) : World :=
  {| store := store w; entropy := entropy w; calls := calls w ++ cs; tools := tools w |}.

(** Two worlds that differ at most in the log of outbound calls. *)
Definition same_session (w1 w2 : World) : Prop :=
  store w1 = store w2 /\ entropy w1 = entropy w2 /\ tools w1 = tools w2.

(** The tools session initialization derives from one tracked contract. *)
Definition tools_of (ext : Collaborators) (entry : SqlValue * jsstring) : list Tool :=
  match descriptor ext (snd entry) with
  | Return funcs => synthesized (read ext (fst entry)) (snd entry) funcs
  | Throw _ => []
  end.

Definition bound_to_marker (t : Tool) : bool :=
  match tool_handler t with
  | ContractFunction _ func_name => includes func_name (js "__")
  | _ => false
  end.


(** The keys of the two tables: [login] is the primary key of
    [addresses], and [contracts] is [UNIQUE (login, address)]. *)
Definition contract_key (r : ContractRow) : SqlValue * jsstring :=
  (c_login r, c_address r).

Definition keys_unique (st : Store) : Prop :=
  NoDup (map a_login (addresses st)) /\ NoDup (map contract_key (contracts st)).

(** Whether a call can write to the store: the three tools that call
    [addContract], [removeContract] or [setAddress]. *)
Definition writes_store (h : Handler) : bool :=
  match h with
  | SetContractAddress | RemoveContractAddress | SetWallet => true
  | _ => false
  end.

(** Whether a call can reach the ledger or the relay. *)
Definition reaches_ledger (h : Handler) : bool :=
  match h with
  | ContractFunction _ _ | DeployToken => true
  | _ => false
  end.

Definition is_fetch (c : NetCall) : bool :=
  match c with
  | GetContractWasm _ => true
  | _ => false
  end.

(** The concrete deployment with some of its services failing. *)
Definition flaky (fail_decode fail_build fail_sign fail_send : bool) : Collaborators :=
  {| Address_toString := demo_address;
     Keypair_random_secret := Keypair_random_secret demo;
     Keypair_publicKey := Keypair_publicKey demo;
     getContractWasmByContractId := getContractWasmByContractId demo;
     Client_fromWasm :=
       fun wasm => if fail_decode then Throw (DecodeError (js "bad wasm"))
                   else Client_fromWasm demo wasm;
     buildWithOp :=
       fun c f a => if fail_build then Throw (LedgerError (js "simulation failed"))
                    else buildWithOp demo c f a;
     decode_ScVal := decode_ScVal demo;
     JSON_parse := JSON_parse demo;
     wallet_sign :=
       fun tx a sk => if fail_sign then Throw (SignError (js "no signer"))
                      else wallet_sign demo tx a sk;
     server_send :=
       fun tx => if fail_send then Throw (RelayError (js "rejected"))
                 else server_send demo tx;
     publicKey := publicKey demo;
     Client_deploy := Client_deploy demo;
     signAuthEntries :=
       fun tx a => if fail_sign then Throw (SignError (js "no signer"))
                   else signAuthEntries demo tx a;
     encodeContract := encodeContract demo;
     affinity := affinity demo;
     Number_toString := Number_toString demo;
     query_order := query_order demo;
     query_order_permutes := query_order_permutes demo |}.

(** * Properties *)

(** ** Strings *)

Example toolName_Token_balance :
  toolName (js "Token") (js "balance") = js "Token_balance".
Proof. reflexivity. Qed.

Example toolName_first_only :
  toolName (js "my__tok") (js "a__b") = js "my_tok__a__b".
Proof. reflexivity. Qed.

Lemma jsstring_eqb_eq (a b : jsstring) : jsstring_eqb a b = true <-> a = b.
Proof.
  unfold jsstring_eqb. destruct (jsstring_eq_dec a b); split; congruence.
Qed.

Lemma jsstring_eqb_refl (a : jsstring) : jsstring_eqb a a = true.
Proof. apply jsstring_eqb_eq; reflexivity. Qed.

Lemma jsstring_eqb_neq (a b : jsstring) : jsstring_eqb a b = false <-> a <> b.
Proof.
  unfold jsstring_eqb. destruct (jsstring_eq_dec a b); split; congruence.
Qed.

Lemma startsWith_app (s p : jsstring) :
  startsWith s p = true <-> exists post, s = p ++ post.
Proof.
  revert s. induction p as [|a p IH]; intros s; simpl.
  - split; [intros _; exists s; reflexivity | reflexivity].
  - destruct s as [|b s]; simpl.
    + split; [discriminate | intros [post H]; discriminate].
    + rewrite andb_true_iff, N.eqb_eq, IH. split.
      * intros [-> [post ->]]. exists post. reflexivity.
      * intros [post H]. injection H as -> ->. split; [reflexivity | eauto].
  Qed.

Lemma includes_app (s p : jsstring) :
  includes s p = true <-> exists pre post, s = pre ++ p ++ post.
Proof.
  induction s as [|c s IH]; simpl.
  - rewrite orb_false_r, startsWith_app. split.
    + intros [post H]. exists [], post. exact H.
    + intros [pre [post H]]. destruct pre; simpl in H.
      * eauto.
      * discriminate.
  - rewrite orb_true_iff, IH, startsWith_app. split.
    + intros [[post H] | [pre [post H]]].
      * exists [], post. exact H.
      * exists (c :: pre), post. simpl. congruence.
    + intros [pre [post H]]. destruct pre as [|c' pre]; simpl in H.
      * left. eauto.
      * right. injection H as -> ->. eauto.
Qed.

Lemma skipn_length_app (p post : jsstring) : skipn (List.length p) (p ++ post) = post.
Proof. induction p; simpl; auto. Qed.

Lemma replace_first_unfold (s p r : jsstring) :
  replace_first s p r =
  if startsWith s p then r ++ skipn (List.length p) s
  else match s with
       | [] => []
       | c :: s' => c :: replace_first s' p r
       end.
Proof. destruct s; reflexivity. Qed.

Lemma replace_first_head (s p r : jsstring) :
  startsWith s p = true ->
  exists post, s = p ++ post /\ replace_first s p r = r ++ post.
Proof.
  intros H. rewrite replace_first_unfold, H.
  apply startsWith_app in H. destruct H as [post ->].
  exists post. rewrite skipn_length_app. auto.
Qed.

(** [replace] leaves a string without the pattern alone, and otherwise
    rewrites its leftmost occurrence. *)
Lemma replace_first_spec (s p r : jsstring) :
  (includes s p = false /\ replace_first s p r = s) \/
  (exists pre post,
      s = pre ++ p ++ post /\
      replace_first s p r = pre ++ r ++ post /\
      forall pre' post', s = pre' ++ p ++ post' -> List.length pre <= List.length pre').
Proof.
  induction s as [|c s IH].
  - destruct (startsWith [] p) eqn:E.
    + right. destruct (replace_first_head _ _ r E) as [post [Hs Hr]].
      exists [], post. repeat split; auto. intros; simpl; lia.
    + left. rewrite replace_first_unfold, E. simpl. rewrite E. auto.
  - destruct (startsWith (c :: s) p) eqn:E.
    + right. destruct (replace_first_head _ _ r E) as [post [Hs Hr]].
      exists [], post. repeat split; auto. intros; simpl; lia.
    + rewrite replace_first_unfold, E. simpl includes. rewrite E. simpl.
      destruct IH as [[Hn Hr] | [pre [post [Hs [Hr Hmin]]]]].
      * left. rewrite Hr. auto.
      * right. exists (c :: pre), post. rewrite Hr. simpl.
        repeat split; try congruence.
        intros pre' post' H'. destruct pre' as [|c' pre']; simpl in H'.
        -- assert (startsWith (c :: s) p = true) by (apply startsWith_app; eauto).
           congruence.
        -- injection H' as _ H'. apply Hmin in H'. simpl. lia.
Qed.

Lemma replace_first_Forall (P : N -> Prop) (s p r : jsstring) :
  Forall P s -> Forall P r -> Forall P (replace_first s p r).
Proof.
  intros Hs Hr. induction Hs as [|c s Hc Hs IH]; rewrite replace_first_unfold.
  - destruct (startsWith [] p); auto.
    apply Forall_app; split; auto. rewrite skipn_nil. constructor.
  - destruct (startsWith (c :: s) p).
    + apply Forall_app; split; auto.
      assert (Hall : Forall P (c :: s)) by (constructor; auto).
      rewrite <- (firstn_skipn (List.length p) (c :: s)) in Hall.
      apply Forall_app in Hall. tauto.
    + constructor; auto.
Qed.

Lemma replace_unsafe_safe (s : jsstring) :
  Forall (fun c => tool_char c = true) (replace_unsafe s).
Proof.
  unfold replace_unsafe. apply Forall_map, Forall_forall. intros c _.
  destruct (tool_char c) eqn:E; [exact E | reflexivity].
Qed.

Lemma Forall_firstn {A : Type} (P : A -> Prop) (n : nat) (l : list A) :
  Forall P l -> Forall P (firstn n l).
Proof.
  intros H. rewrite <- (firstn_skipn n l) in H. apply Forall_app in H. tauto.
Qed.

(** ** Tool names *)

(** C8. The tool id is a function of (contractName, functionName): equal
    pairs give equal ids.  The id is made of letters, digits, underscores
    and hyphens only and is at most 64 code units long.  It is the
    sanitized "<contractName>: <functionName>", cut to 64 code units, in
    which the leftmost double underscore, if there is one, has become a
    single underscore; a name that needs no sanitizing and no cut is kept
    as it is by the first two steps. *)
Theorem toolName_derivation (contract_name func_name contract_name' func_name' : jsstring) :
  contract_name' = contract_name ->
  func_name' = func_name ->
  let raw := contract_name ++ js ": " ++ func_name in
  let sanitized := substring0 64 (replace_unsafe raw) in
  toolName contract_name' func_name' = toolName contract_name func_name /\
  Forall (fun c => tool_char c = true) (toolName contract_name func_name) /\
  List.length (toolName contract_name func_name) <= 64 /\
  List.length sanitized = Nat.min 64 (List.length raw) /\
  (forall i, i < List.length sanitized ->
             nth i sanitized 0%N =
             if tool_char (nth i raw 0%N) then nth i raw 0%N else underscore) /\
  ((includes sanitized (js "__") = false /\
    toolName contract_name func_name = sanitized) \/
   (exists pre post,
       sanitized = pre ++ js "__" ++ post /\
       toolName contract_name func_name = pre ++ js "_" ++ post /\
       forall pre' post',
         sanitized = pre' ++ js "__" ++ post' -> List.length pre <= List.length pre')).
Proof.
  intros -> -> raw sanitized.
  assert (Hlen : List.length sanitized = Nat.min 64 (List.length raw)).
  { unfold sanitized, substring0, replace_unsafe.
    rewrite length_firstn, length_map. reflexivity. }
  assert (Hsafe : Forall (fun c => tool_char c = true) sanitized).
  { apply Forall_firstn, replace_unsafe_safe. }
  assert (Hrep : toolName contract_name func_name
                 = replace_first sanitized (js "__") (js "_")) by reflexivity.
  split; [reflexivity|]. split; [|split; [|split; [exact Hlen|split]]].
  - rewrite Hrep. apply replace_first_Forall; auto.
    repeat constructor.
  - rewrite Hrep.
    destruct (replace_first_spec sanitized (js "__") (js "_"))
      as [[_ ->] | [pre [post [Hs [-> _]]]]].
    + lia.
    + rewrite Hs in Hlen. rewrite !length_app in Hlen. rewrite !length_app.
      change (List.length (js "__")) with 2 in Hlen.
      change (List.length (js "_")) with 1. lia.
  - intros i Hi. unfold sanitized, substring0, replace_unsafe in *.
    rewrite length_firstn, length_map in Hi.
    rewrite nth_firstn.
    destruct (Nat.ltb_spec i 64) as [_|Hge]; [|lia].
    rewrite (nth_indep _ 0%N (if tool_char 0%N then 0%N else underscore))
      by (rewrite length_map; lia).
    rewrite (map_nth (fun c => if tool_char c then c else underscore)).
    reflexivity.
  - rewrite Hrep. apply replace_first_spec.
Qed.

Lemma toolName_derivation_witness :
  Forall (fun c => tool_char c = true) (toolName (js "Token") (js "balance")).
Proof.
  exact (proj1 (proj2 (toolName_derivation (js "Token") (js "balance")
                                           (js "Token") (js "balance")
                                           eq_refl eq_refl))).
Defined.

(** ** Session initialization *)

Lemma add_tools_nil (w : World) : add_tools [] w = w.
Proof. destruct w; unfold add_tools; simpl. rewrite app_nil_r. reflexivity. Qed.

Lemma add_tools_app (ts1 ts2 : list Tool) (w : World) :
  add_tools ts2 (add_tools ts1 w) = add_tools (ts1 ++ ts2) w.
Proof. unfold add_tools; simpl. rewrite app_assoc. reflexivity. Qed.

Lemma add_calls_app (cs1 cs2 : list NetCall) (w : World) :
  add_calls cs2 (add_calls cs1 w) = add_calls (cs1 ++ cs2) w.
Proof. unfold add_calls; simpl. rewrite app_assoc. reflexivity. Qed.

Lemma add_tools_calls (ts : list Tool) (cs : list NetCall) (w : World) :
  add_calls cs (add_tools ts w) = add_tools ts (add_calls cs w).
Proof. reflexivity. Qed.

Lemma same_session_refl (w : World) : same_session w w.
Proof. repeat split. Qed.

Lemma same_session_add_calls (cs : list NetCall) (w : World) :
  same_session (add_calls cs w) w.
Proof. repeat split. Qed.

Lemma same_session_add_tools (ts : list Tool) (w1 w2 : World) :
  same_session w1 w2 -> same_session (add_tools ts w1) (add_tools ts w2).
Proof.
  intros [Hs [He Ht]]. repeat split; simpl; congruence.
Qed.

Lemma register_all_cons (t : Tool) (rest : list Tool) (w : World) :
  register_all (t :: rest) w =
  if existsb (fun t' => jsstring_eqb (tool_name t') (tool_name t)) (tools w)
  then (Throw (AlreadyRegistered (tool_name t)), w)
  else register_all rest (add_tools [t] w).
Proof.
  simpl. unfold bind, server_tool.
  destruct (existsb _ (tools w)); reflexivity.
Qed.

Lemma synthesized_cons (contract_name contractId : jsstring) (func : Func)
      (rest : list Func) :
  synthesized contract_name contractId (func :: rest) =
  synthesized contract_name contractId [func] ++ synthesized contract_name contractId rest.
Proof.
  unfold synthesized. simpl.
  destruct (includes (func_name func) (js "__")); reflexivity.
Qed.

(** The inner loop is the registration, in the order of the interface, of
    one tool per function without the marker. *)
Lemma register_funcs_spec (contract_name : jsstring) (contract : Client)
      (funcs : list Func) (w : World) :
  register_funcs contract_name contract funcs w =
  register_all (synthesized contract_name (options_contractId contract) funcs) w.
Proof.
  revert w. induction funcs as [|func rest IH]; intros w; [reflexivity|].
  rewrite synthesized_cons. simpl. unfold bind, register_func, synthesized. simpl.
  destruct (includes (func_name func) (js "__")); simpl.
  - apply IH.
  - unfold bind. destruct (server_tool _ w) as [[[]|e] w']; [apply IH | reflexivity].
Qed.

(** Registration only ever appends, and what it appends comes from the
    list it was given. *)
Lemma register_all_grows (ts : list Tool) (w : World) :
  exists new,
    snd (register_all ts w) = add_tools new w /\ incl new ts.
Proof.
  revert w. induction ts as [|t ts IH]; intros w.
  - exists []. simpl. rewrite add_tools_nil. split; [reflexivity | apply incl_refl].
  - rewrite register_all_cons.
    destruct (existsb _ (tools w)).
    + exists []. simpl. rewrite add_tools_nil. split; [reflexivity|]. intros x [].
    + destruct (IH (add_tools [t] w)) as [new [Hw Hincl]].
      exists (t :: new). rewrite Hw, add_tools_app. split; [reflexivity|].
      intros x [<-|Hx]; [left; reflexivity | right; apply Hincl, Hx].
Qed.

(** A registration that runs to its end has registered all of the list. *)
Lemma register_all_complete (ts : list Tool) (w : World) :
  fst (register_all ts w) = Return tt ->
  snd (register_all ts w) = add_tools ts w.
Proof.
  revert w. induction ts as [|t ts IH]; intros w.
  - simpl. rewrite add_tools_nil. reflexivity.
  - rewrite register_all_cons.
    destruct (existsb _ (tools w)); [discriminate|].
    intros H. rewrite (IH _ H), add_tools_app. reflexivity.
Qed.

Lemma existsb_name_false (n : jsstring) (ts : list Tool) :
  ~ In n (map tool_name ts) ->
  existsb (fun t' => jsstring_eqb (tool_name t') n) ts = false.
Proof.
  induction ts as [|t ts IH]; simpl; intros H; [reflexivity|].
  rewrite IH by tauto.
  assert (E : jsstring_eqb (tool_name t) n = false) by (apply jsstring_eqb_neq; tauto).
  rewrite E. reflexivity.
Qed.

(** With names that are new and pairwise distinct, all of the list is
    registered. *)
Lemma register_all_ok (ts : list Tool) (w : World) :
  NoDup (map tool_name (tools w ++ ts)) ->
  register_all ts w = (Return tt, add_tools ts w).
Proof.
  revert w. induction ts as [|t ts IH]; intros w Hnd.
  - simpl. rewrite add_tools_nil. reflexivity.
  - rewrite register_all_cons.
    rewrite map_app in Hnd. simpl in Hnd.
    pose proof (NoDup_remove_2 _ _ _ Hnd) as Hnotin.
    rewrite existsb_name_false
      by (intros Hin; apply Hnotin, in_or_app; left; exact Hin).
    rewrite IH.
    + rewrite add_tools_app. reflexivity.
    + simpl. rewrite <- app_assoc, map_app. simpl. exact Hnd.
Qed.

Lemma register_all_frame (ts : list Tool) (w1 w2 : World) :
  same_session w1 w2 ->
  fst (register_all ts w1) = fst (register_all ts w2) /\
  same_session (snd (register_all ts w1)) (snd (register_all ts w2)).
Proof.
  revert w1 w2. induction ts as [|t ts IH]; intros w1 w2 Hw; [simpl; auto|].
  rewrite !register_all_cons.
  assert (Ht : tools w1 = tools w2) by apply Hw. rewrite Ht.
  destruct (existsb _ (tools w2)).
  - simpl. auto.
  - apply IH, same_session_add_tools, Hw.
Qed.

(** One turn of the outer loop. *)
Lemma register_contract_spec (ext : Collaborators) (contract_name : SqlValue)
      (contractId : jsstring) (w : World) :
  register_contract ext (contract_name, contractId) w =
  match descriptor ext contractId with
  | Return funcs =>
      register_all (synthesized (read ext contract_name) contractId funcs)
                   (add_calls [GetContractWasm contractId] w)
  | Throw e => (Throw e, add_calls [GetContractWasm contractId] w)
  end.
Proof.
  unfold register_contract, descriptor, bind, try_catch, call, lift, ret.
  destruct (getContractWasmByContractId ext contractId) as [wasm|e]; simpl.
  - destruct (Client_fromWasm ext wasm) as [funcs|e]; simpl.
    + rewrite register_funcs_spec. reflexivity.
    + reflexivity.
  - reflexivity.
Qed.

Lemma register_contracts_cons (ext : Collaborators) (entry : SqlValue * jsstring)
      (rest : list (SqlValue * jsstring)) (w : World) :
  register_contracts ext (entry :: rest) w =
  match register_contract ext entry w with
  | (Return _, w') => register_contracts ext rest w'
  | (Throw e, w') => (Throw e, w')
  end.
Proof. reflexivity. Qed.

Lemma register_contract_frame (ext : Collaborators) (entry : SqlValue * jsstring)
      (w1 w2 : World) :
  same_session w1 w2 ->
  fst (register_contract ext entry w1) = fst (register_contract ext entry w2) /\
  same_session (snd (register_contract ext entry w1)) (snd (register_contract ext entry w2)).
Proof.
  intros Hw. destruct entry as [cn id]. rewrite !register_contract_spec.
  assert (Hc : same_session (add_calls [GetContractWasm id] w1)
                            (add_calls [GetContractWasm id] w2)).
  { destruct Hw as [Hs [He Ht]]. repeat split; simpl; assumption. }
  destruct (descriptor ext id) as [funcs|e].
  - apply register_all_frame, Hc.
  - simpl. auto.
Qed.

Lemma register_contracts_frame (ext : Collaborators) (cs : list (SqlValue * jsstring))
      (w1 w2 : World) :
  same_session w1 w2 ->
  fst (register_contracts ext cs w1) = fst (register_contracts ext cs w2) /\
  same_session (snd (register_contracts ext cs w1)) (snd (register_contracts ext cs w2)).
Proof.
  revert w1 w2. induction cs as [|entry rest IH]; intros w1 w2 Hw.
  - simpl. auto.
  - rewrite !register_contracts_cons.
    destruct (register_contract_frame ext entry w1 w2 Hw) as [Hr Hs].
    destruct (register_contract ext entry w1) as [r1 w1'].
    destruct (register_contract ext entry w2) as [r2 w2'].
    simpl in Hr, Hs. subst r2. destruct r1 as [[]|e].
    + apply IH, Hs.
    + simpl. auto.
Qed.

Lemma register_contracts_skip (ext : Collaborators) (pre post : list (SqlValue * jsstring))
      (bad : SqlValue * jsstring) (e : Exn) (w : World) :
  getContractWasmByContractId ext (snd bad) = Throw e ->
  fst (register_contracts ext (pre ++ bad :: post) w)
  = fst (register_contracts ext (pre ++ post) w) /\
  same_session (snd (register_contracts ext (pre ++ bad :: post) w))
               (snd (register_contracts ext (pre ++ post) w)).
Proof.
  intros Hbad. revert w. induction pre as [|entry pre IH]; intros w.
  - destruct bad as [cn id]. simpl in Hbad. simpl app.
    rewrite register_contracts_cons, register_contract_spec.
    unfold descriptor. rewrite Hbad.
    apply register_contracts_frame. apply same_session_add_calls.
  - simpl app. rewrite !register_contracts_cons.
    destruct (register_contract ext entry w) as [[[]|e'] w'].
    + apply IH.
    + simpl. split; [reflexivity | apply same_session_refl].
Qed.

Lemma register_contracts_ok (ext : Collaborators) (cs : list (SqlValue * jsstring))
      (w : World) :
  Forall (fun entry => exists funcs, descriptor ext (snd entry) = Return funcs) cs ->
  NoDup (map tool_name (tools w ++ flat_map (tools_of ext) cs)) ->
  register_contracts ext cs w =
  (Return tt, add_tools (flat_map (tools_of ext) cs)
                        (add_calls (map (fun entry => GetContractWasm (snd entry)) cs) w)).
Proof.
  intros H. revert w. induction H as [|[cn id] rest [funcs Hd] _ IH]; intros w Hnd.
  - simpl. unfold add_calls. simpl. rewrite app_nil_r.
    change (ret tt w = (Return tt, add_tools [] w)). rewrite add_tools_nil. reflexivity.
  - rewrite register_contracts_cons, register_contract_spec. simpl in Hd. rewrite Hd.
    assert (Htools : tools_of ext (cn, id) = synthesized (read ext cn) id funcs)
      by (unfold tools_of; simpl; rewrite Hd; reflexivity).
    simpl flat_map in *. simpl map. rewrite Htools in *.
    rewrite register_all_ok.
    + rewrite IH.
      * rewrite add_tools_calls, add_calls_app, add_tools_app. reflexivity.
      * simpl. rewrite <- app_assoc. exact Hnd.
    + simpl. rewrite app_assoc, map_app in Hnd.
      apply NoDup_app_remove_r in Hnd. exact Hnd.
Qed.

Lemma stub_getContracts_spec (ext : Collaborators) (login : jsstring) (w : World) :
  stub_getContracts ext login w = (Return (getContracts ext login (store w)), w).
Proof. destruct w; reflexivity. Qed.

Lemma init_spec (ext : Collaborators) (login : jsstring) (w : World) :
  init ext login w =
  match register_contracts ext (getContracts ext login (store w)) w with
  | (Return _, w') => register_all fixed_tools w'
  | (Throw e, w') => (Throw e, w')
  end.
Proof.
  unfold init, bind. rewrite stub_getContracts_spec. reflexivity.
Qed.

Lemma synthesized_unmarked (contract_name contractId : jsstring) (funcs : list Func) :
  Forall (fun t => bound_to_marker t = false) (synthesized contract_name contractId funcs).
Proof.
  unfold synthesized. apply Forall_map, Forall_forall. intros func Hin.
  apply filter_In in Hin. destruct Hin as [_ Hin].
  unfold bound_to_marker. simpl. apply negb_true_iff. exact Hin.
Qed.

Lemma register_contracts_unmarked (ext : Collaborators) (cs : list (SqlValue * jsstring))
      (w : World) :
  exists new,
    tools (snd (register_contracts ext cs w)) = tools w ++ new /\
    Forall (fun t => bound_to_marker t = false) new.
Proof.
  revert w. induction cs as [|[cn id] rest IH]; intros w.
  - exists []. simpl. rewrite app_nil_r. auto.
  - rewrite register_contracts_cons, register_contract_spec.
    destruct (descriptor ext id) as [funcs|e].
    + destruct (register_all_grows (synthesized (read ext cn) id funcs)
                                   (add_calls [GetContractWasm id] w))
        as [new1 [Hw1 Hincl]].
      assert (Hnew1 : Forall (fun t => bound_to_marker t = false) new1)
        by (eapply incl_Forall; [exact Hincl | apply synthesized_unmarked]).
      destruct (register_all (synthesized (read ext cn) id funcs)
                             (add_calls [GetContractWasm id] w)) as [[[]|e] w1];
        simpl in Hw1; subst w1.
      * destruct (IH (add_tools new1 (add_calls [GetContractWasm id] w)))
          as [new [Ht Hnew]].
        exists (new1 ++ new). split.
        -- rewrite Ht. simpl. rewrite app_assoc. reflexivity.
        -- apply Forall_app. split; assumption.
      * exists new1. simpl. auto.
    + exists []. simpl. rewrite app_nil_r. auto.
Qed.

(** C9. Whatever the user tracks and whatever the ledger answers, no tool
    that session initialization registers is bound to a function whose
    name contains the double-underscore marker.  For one decoded interface:
    the loop over its functions registers no tool for a function with the
    marker, and when it runs to its end it has registered a tool for every
    function without it. *)
Theorem no_tool_for_marked_function (ext : Collaborators) (login : jsstring) (w : World) :
  (exists new,
      tools (snd (init ext login w)) = tools w ++ new /\
      Forall (fun t => bound_to_marker t = false) new) /\
  (forall (contract_name : jsstring) (contract : Client) (funcs : list Func) (w' : World),
      exists new,
        snd (register_funcs contract_name contract funcs w') = add_tools new w' /\
        (forall func t,
            In func funcs -> In t new ->
            includes (func_name func) (js "__") = true ->
            tool_handler t <> ContractFunction (options_contractId contract) (func_name func)) /\
        (fst (register_funcs contract_name contract funcs w') = Return tt ->
         forall func,
           In func funcs ->
           includes (func_name func) (js "__") = false ->
           exists t, In t (tools (snd (register_funcs contract_name contract funcs w'))) /\
                     tool_name t = toolName contract_name (func_name func) /\
                     tool_handler t
                     = ContractFunction (options_contractId contract) (func_name func))).
Proof.
  split.
  - rewrite init_spec.
    destruct (register_contracts_unmarked ext (getContracts ext login (store w)) w)
      as [new [Ht Hnew]].
    destruct (register_contracts ext (getContracts ext login (store w)) w) as [[[]|e] w1];
      simpl in Ht.
    + destruct (register_all_grows fixed_tools w1) as [new2 [Hw2 Hincl]].
      exists (new ++ new2). rewrite Hw2. simpl. rewrite Ht, app_assoc.
      split; [reflexivity|].
      apply Forall_app. split; [exact Hnew|].
      eapply incl_Forall; [exact Hincl | repeat constructor].
    + exists new. simpl. auto.
  - intros cn contract funcs w'. rewrite register_funcs_spec.
    destruct (register_all_grows (synthesized cn (options_contractId contract) funcs) w')
      as [new [Hw Hincl]].
    exists new. split; [exact Hw|]. split.
    + intros func t Hf Ht Hmark Hbound.
      pose proof (synthesized_unmarked cn (options_contractId contract) funcs) as Hall.
      rewrite Forall_forall in Hall. specialize (Hall t (Hincl t Ht)).
      unfold bound_to_marker in Hall. rewrite Hbound in Hall. congruence.
    + intros Hok func Hf Hmark.
      rewrite (register_all_complete _ _ Hok).
      eexists. split.
      * simpl. apply in_or_app. right. unfold synthesized.
        apply in_map, filter_In. split; [exact Hf|]. rewrite Hmark. reflexivity.
      * simpl. auto.
Qed.

(** C4. When the code of one tracked contract cannot be fetched, session
    initialization ends as it would had the user not tracked that contract:
    same outcome, same registered tools, same store.  So when the other
    tracked contracts can be fetched and decoded, and no tool name is taken
    twice, initialization succeeds and registers their tools, in order,
    followed by the fixed tools. *)
Theorem init_skips_unfetchable_contract (ext : Collaborators) (login : jsstring)
        (w : World) (pre post : list (SqlValue * jsstring)) (bad : SqlValue * jsstring)
        (e : Exn) :
  getContracts ext login (store w) = pre ++ bad :: post ->
  getContractWasmByContractId ext (snd bad) = Throw e ->
  (fst (init ext login w)
   = fst ((register_contracts ext (pre ++ post) ;;; register_all fixed_tools) w) /\
   same_session
     (snd (init ext login w))
     (snd ((register_contracts ext (pre ++ post) ;;; register_all fixed_tools) w))) /\
  (Forall (fun entry => exists funcs, descriptor ext (snd entry) = Return funcs)
          (pre ++ post) ->
   NoDup (map tool_name
              (tools w ++ flat_map (tools_of ext) (pre ++ post) ++ fixed_tools)) ->
   fst (init ext login w) = Return tt /\
   tools (snd (init ext login w))
   = tools w ++ flat_map (tools_of ext) (pre ++ post) ++ fixed_tools).
Proof.
  intros Htracked Hbad. rewrite init_spec, Htracked. split.
  - destruct (register_contracts_skip ext pre post bad e w Hbad) as [Hr Hw].
    unfold bind.
    destruct (register_contracts ext (pre ++ bad :: post) w) as [r1 w1].
    destruct (register_contracts ext (pre ++ post) w) as [r2 w2].
    simpl in Hr, Hw. subst r2. destruct r1 as [[]|e1].
    + apply register_all_frame, Hw.
    + simpl. auto.
  - intros Hothers Hnd.
    assert (Hd : descriptor ext (snd bad) = Return []).
    { unfold descriptor. rewrite Hbad. reflexivity. }
    assert (Hflat : flat_map (tools_of ext) (pre ++ bad :: post)
                    = flat_map (tools_of ext) (pre ++ post)).
    { rewrite !flat_map_app. simpl. unfold tools_of at 2. rewrite Hd. reflexivity. }
    rewrite register_contracts_ok.
    + rewrite Hflat. rewrite register_all_ok.
      * simpl. rewrite <- app_assoc. auto.
      * simpl. rewrite <- app_assoc. exact Hnd.
    + apply Forall_app in Hothers. destruct Hothers as [Hpre Hpost].
      apply Forall_app. split; [exact Hpre|]. constructor; [eauto | exact Hpost].
    + rewrite Hflat. rewrite app_assoc, map_app in Hnd.
      apply NoDup_app_remove_r in Hnd. exact Hnd.
Qed.

Lemma init_skips_unfetchable_contract_witness :
  fst (init demo (js "alice") (world_of alice_store)) = Return tt /\
  tools (snd (init demo (js "alice") (world_of alice_store)))
  = synthesized (js "Token") (js "CTOKEN") demo_funcs ++ fixed_tools.
Proof.
  refine (proj2 (init_skips_unfetchable_contract demo (js "alice") (world_of alice_store)
                   [] [(SqlText (js "Token"), js "CTOKEN")]
                   (SqlText (js "Broken"), js "CBROKEN")
                   (LedgerError (js "not found")) _ _) _ _).
  - reflexivity.
  - reflexivity.
  - constructor; [|constructor]. exists demo_funcs. reflexivity.
  - repeat (constructor; [simpl; intuition discriminate|]). constructor.
Defined.

(** ** The store *)

Lemma sql_eqb_eq (a b : SqlValue) : sql_eqb a b = true <-> a = b.
Proof.
  destruct a as [s|m], b as [t|n]; simpl; try rewrite jsstring_eqb_eq;
    split; intros H; try discriminate; congruence.
Qed.

Lemma sql_eqb_refl (a : SqlValue) : sql_eqb a a = true.
Proof. apply sql_eqb_eq; reflexivity. Qed.

Lemma sql_eqb_neq (a b : SqlValue) : sql_eqb a b = false <-> a <> b.
Proof.
  rewrite <- sql_eqb_eq. destruct (sql_eqb a b); split; congruence.
Qed.

Lemma filter_none_login (key : SqlValue) (rows : list AddressRow) :
  (forall row, In row rows -> a_login row <> key) ->
  filter (fun r => sql_eqb (a_login r) key) rows = [] /\
  existsb (fun r => sql_eqb (a_login r) key) rows = false.
Proof.
  induction rows as [|row rows IH]; intros H; simpl; [auto|].
  assert (E : sql_eqb (a_login row) key = false).
  { apply sql_eqb_neq, H. left. reflexivity. }
  rewrite E. simpl. apply IH. intros r Hr. apply H. right. exact Hr.
Qed.

Lemma getAddress_without_wallet (ext : Collaborators) (login : jsstring) (st : Store) :
  (forall row, In row (addresses st) -> a_login row <> affinity ext login) ->
  getAddress ext login st = Throw (OneRowExpected 0).
Proof.
  intros H. unfold getAddress.
  destruct (filter_none_login (affinity ext login) (addresses st) H) as [-> _]. reflexivity.
Qed.

Lemma stub_getAddress_spec (ext : Collaborators) (login : jsstring) (w : World) :
  stub_getAddress ext login w = (getAddress ext login (store w), w).
Proof.
  unfold stub_getAddress, with_store.
  destruct (getAddress ext login (store w)) as [r|e]; simpl; [destruct w|]; reflexivity.
Qed.

Lemma login_absent (key : SqlValue) (rows : list AddressRow) :
  existsb (fun r => sql_eqb (a_login r) key) rows = false <->
  ~ In key (map a_login rows).
Proof.
  induction rows as [|r rows IH]; simpl; [tauto|].
  rewrite orb_false_iff, IH, sql_eqb_neq. tauto.
Qed.


(** C7 does not hold of the code.  The column [name] is declared [STRING]:
    a name that is a numeral is stored as the number, so on an empty
    registry the list has one entry, but its name is that number and not
    the name that was passed (the source casts the row to a pair of
    strings all the same), and the tool names derived from it start with
    "7".  The second, identical call still changes nothing. *)
Theorem numeral_name_comes_back_as_number :
  exists st1,
    addContract demo (js "u1") (js "007") (js "CTOKEN") empty_store = Return st1 /\
    getContracts demo (js "u1") st1 = [(SqlNumber (js "7"), js "CTOKEN")] /\
    getContracts demo (js "u1") st1 <> [(SqlText (js "007"), js "CTOKEN")] /\
    map tool_name (tools (snd (init demo (js "u1") (world_of st1))))
    = [js "7_balance"; js "7_transfer"; js "7_bump"] ++ map tool_name fixed_tools /\
    addContract demo (js "u1") (js "007") (js "CTOKEN") st1 = Return st1.
Proof.
  eexists. split; [reflexivity|]. split; [reflexivity|].
  split; [discriminate|]. split; reflexivity.
Qed.



(** ** Tool handlers *)

Ltac run_monad :=
  unfold try_catch, bind, lift, call, ret, throw, not_awaited; simpl.

(** The mutation branch of a contract tool, from the wallet lookup on. *)
Lemma mutation_branch_never_plain (ext : Collaborators) (login : jsstring)
      (at_ : AssembledTransaction) (json : jsstring) (w : World) (s : jsstring) :
  fst (try_catch
         (address_sk <- stub_getAddress ext login ;;
          let '(address, sk) := address_sk in
          _ <- lift (Keypair_publicKey ext sk) ;;
          call (WalletSign address sk) ;;;
          at_ <- lift (wallet_sign ext at_ address sk) ;;
          call (RelaySend at_) ;;;
          res <- lift (server_send ext at_) ;;
          result <- lift (JSON_parse ext json) ;;
          ret (text_envelope
                 (Stringify (JObj [(js "result", result); (js "success", res)]))))
         (fun err => ret (text_envelope (Stringify (JErr err)))) w)
  <> Return (text_envelope (Plain s)).
Proof.
  unfold try_catch, bind. rewrite stub_getAddress_spec.
  destruct (getAddress ext login (store w)) as [[address sk]|e]; run_monad;
    [|discriminate].
  destruct (Keypair_publicKey ext sk); simpl; [|discriminate].
  destruct (wallet_sign ext at_ address sk) as [at1|]; simpl; [|discriminate].
  destruct (server_send ext at1); simpl; [|discriminate].
  destruct (JSON_parse ext json); simpl; discriminate.
Qed.

Lemma contract_function_handler_simulated (ext : Collaborators) (login : jsstring)
      (contractId func_name : jsstring) (params : list ScVal) (w : World)
      (contractAddress json : jsstring) (at_ : AssembledTransaction) :
  Address_toString ext contractId = Return contractAddress ->
  buildWithOp ext contractAddress func_name params = Return at_ ->
  decode_ScVal ext (retval at_) = Return json ->
  contract_function_handler ext login contractId func_name params w =
  if isReadCall at_ then
    (Return (text_envelope (Plain json)),
     add_calls [Simulate contractAddress func_name params] w)
  else
    try_catch
      (address_sk <- stub_getAddress ext login ;;
       let '(address, sk) := address_sk in
       _ <- lift (Keypair_publicKey ext sk) ;;
       call (WalletSign address sk) ;;;
       at_ <- lift (wallet_sign ext at_ address sk) ;;
       call (RelaySend at_) ;;;
       res <- lift (server_send ext at_) ;;
       result <- lift (JSON_parse ext json) ;;
       ret (text_envelope
              (Stringify (JObj [(js "result", result); (js "success", res)]))))
      (fun err => ret (text_envelope (Stringify (JErr err))))
      (add_calls [Simulate contractAddress func_name params] w).
Proof.
  intros Ha Hb Hd. unfold contract_function_handler.
  unfold try_catch at 1. unfold bind at 1. unfold lift at 1. rewrite Ha.
  unfold bind at 1. unfold call at 1.
  unfold bind at 1. unfold lift at 1. rewrite Hb.
  unfold bind at 1. unfold lift at 1. rewrite Hd.
  destruct (isReadCall at_); reflexivity.
Qed.

(** C1, as the code has it. Once a call is assembled and its return value
    decoded, the handler treats it as a read exactly when the assembled
    transaction's [isReadCall] flag is set: it then answers with the
    decoded return value at once, having made no outbound call but the
    simulation and leaving the store alone; when the flag is not set it
    never answers that way. The list of non-invoker signers plays no part. *)
Theorem read_call_classification (ext : Collaborators) (login : jsstring)
        (contractId func_name : jsstring) (params : list ScVal) (w : World)
        (contractAddress json : jsstring) (at_ : AssembledTransaction) :
  Address_toString ext contractId = Return contractAddress ->
  buildWithOp ext contractAddress func_name params = Return at_ ->
  decode_ScVal ext (retval at_) = Return json ->
  (fst (contract_function_handler ext login contractId func_name params w)
   = Return (text_envelope (Plain json)) <-> isReadCall at_ = true) /\
  (isReadCall at_ = true ->
   contract_function_handler ext login contractId func_name params w
   = (Return (text_envelope (Plain json)),
      add_calls [Simulate contractAddress func_name params] w) /\
   existsb is_submission
           (calls (snd (contract_function_handler ext login contractId func_name params w)))
   = existsb is_submission (calls w)) /\
  (isReadCall at_ = false ->
   forall s,
     fst (contract_function_handler ext login contractId func_name params w)
     <> Return (text_envelope (Plain s))).
Proof.
  intros Ha Hb Hd.
  rewrite (contract_function_handler_simulated ext login contractId func_name params w
             contractAddress json at_ Ha Hb Hd).
  destruct (isReadCall at_) eqn:E.
  - split; [split; reflexivity|]. split; [|discriminate].
    intros _. split; [reflexivity|]. simpl. rewrite existsb_app. simpl.
    apply orb_false_r.
  - split; [|split; [discriminate|]].
    + split; [|discriminate]. intros H. exfalso.
      exact (mutation_branch_never_plain ext login at_ json _ json H).
    + intros _ s. apply mutation_branch_never_plain.
Qed.

Lemma read_call_classification_witness :
  contract_function_handler demo (js "alice") (js "CTOKEN") (js "balance") [js "GBOB"]
                            (world_of alice_store)
  = (Return (text_envelope (Plain (js "42"))),
     add_calls [Simulate (js "CTOKEN") (js "balance") [js "GBOB"]] (world_of alice_store)).
Proof.
  apply (read_call_classification demo (js "alice") (js "CTOKEN") (js "balance")
           [js "GBOB"] (world_of alice_store) (js "CTOKEN") (js "42")
           (demo_simulation (js "balance")));
    reflexivity.
Defined.

(** C1, as stated, fails: a call that no party other than the invoker has
    to authorize (its list of non-invoker signers is empty) but whose
    [isReadCall] flag is not set is signed and submitted. *)
Lemma read_call_not_decided_by_signers :
  buildWithOp demo (js "CTOKEN") (js "bump") [] = Return (demo_simulation (js "bump")) /\
  needsNonInvokerSigningBy (demo_simulation (js "bump")) = [] /\
  existsb is_submission
          (calls (snd (contract_function_handler demo (js "alice") (js "CTOKEN") (js "bump")
                                                 [] (world_of alice_store)))) = true /\
  fst (contract_function_handler demo (js "alice") (js "CTOKEN") (js "bump")
                                 [] (world_of alice_store))
  <> Return (text_envelope (Plain (js "7"))).
Proof.
  repeat split; try reflexivity. discriminate.
Qed.




(** ** Wallet lookup in the fixed tools *)

Lemma getWallet_handler_spec (ext : Collaborators) (login : jsstring) (w : World) :
  getWallet_handler ext login w =
  match getAddress ext login (store w) with
  | Return (address, _) =>
      (Return (text_envelope (Plain (js "Wallet address is " ++ address))), w)
  | Throw e => (Throw e, w)
  end.
Proof.
  unfold getWallet_handler, bind. rewrite stub_getAddress_spec.
  destruct (getAddress ext login (store w)) as [[address sk]|e]; reflexivity.
Qed.




(** ** Which handlers always answer *)

Lemma contract_function_handler_answers (ext : Collaborators) (login : jsstring)
      (contractId func_name : jsstring) (params : list ScVal) (w : World) :
  exists envelope,
    fst (contract_function_handler ext login contractId func_name params w)
    = Return envelope.
Proof.
  unfold contract_function_handler, try_catch.
  match goal with
  | |- context [match ?m w with _ => _ end] => destruct (m w) as [[envelope|e] w']
  end; simpl; eauto.
Qed.

Lemma deployToken_handler_answers (ext : Collaborators) (login : jsstring)
      (name symbol : jsstring) (initial_supply cap : Z) (w : World) :
  exists envelope,
    fst (deployToken_handler ext login name symbol initial_supply cap w) = Return envelope.
Proof.
  unfold deployToken_handler, try_catch.
  match goal with
  | |- context [match ?m w with _ => _ end] => destruct (m w) as [[envelope|e] w']
  end; simpl; eauto.
Qed.

Lemma unawaited_handlers_answer (ext : Collaborators) (login : jsstring)
      (arg : jsstring) (w : World) :
  fst (removeContractAddress_handler ext login arg w)
  = Return (text_envelope (Plain (js "Success! Now reload to see your new tools"))) /\
  fst (setWallet_handler ext login arg w)
  = Return (text_envelope (Plain (js "Wallet address set to " ++ arg))).
Proof. split; reflexivity. Qed.

(** C2 does not hold of the code. The handlers of the contract tools and of
    [deployToken] catch what is thrown below them (the two lemmas above),
    but [getWallet] and [setContractAddress] have no [try]: for a user
    without a wallet the lookup's exception leaves the handler, and so
    does the exception of a malformed contract address; no envelope is
    produced. *)
Theorem fixed_tools_let_exceptions_escape :
  invoke demo (js "bob") CallGetWallet fresh_world
  = (Throw (OneRowExpected 0), fresh_world) /\
  invoke demo (js "bob") (CallSetContractAddress (js "Token") (js "CTOKEN")) fresh_world
  = (Throw (OneRowExpected 0), fresh_world) /\
  invoke demo (js "alice") (CallSetContractAddress (js "Token") (js "token"))
         (world_of alice_store)
  = (Throw (InvalidAddress (js "token")), world_of alice_store).
Proof. repeat split. Qed.

(** ** Deployment *)

Lemma deployNewFungiblePausableToken_spec (ext : Collaborators)
      (owner name symbol : jsstring) (initial_supply cap : Z) (w : World) :
  let args := {| owner := owner; name := name; symbol := symbol; decimals := 0;
                 initial_supply := initial_supply; cap := cap |} in
  let pk := publicKey ext in
  deployNewFungiblePausableToken ext owner name symbol initial_supply cap w =
  match Client_deploy ext args pk with
  | Throw e => (Throw e, add_calls [SimulateDeploy args pk] w)
  | Return at0 =>
      match signAuthEntries ext at0 pk with
      | Throw e => (Throw e, add_calls [SimulateDeploy args pk; SignAuthEntries pk] w)
      | Return at1 =>
          let w3 := add_calls [SimulateDeploy args pk; SignAuthEntries pk; RelaySend at1] w in
          match server_send ext at1 with
          | Throw e => (Throw e, w3)
          | Return res =>
              match encodeContract ext (retval at1) with
              | Throw e => (Throw e, w3)
              | Return contractId =>
                  (Return (JSpread res [(js "contractId", JStr contractId)]), w3)
              end
          end
      end
  end.
Proof.
  intros args pk. unfold deployNewFungiblePausableToken. fold args. fold pk.
  unfold bind, call, lift, ret, add_calls. simpl.
  destruct (Client_deploy ext args pk) as [at0|e]; simpl; [|reflexivity].
  destruct (signAuthEntries ext at0 pk) as [at1|e]; simpl;
    [|rewrite <- app_assoc; reflexivity].
  rewrite <- !app_assoc. simpl.
  destruct (server_send ext at1) as [res|e]; simpl; [|reflexivity].
  destruct (encodeContract ext (retval at1)) as [cid|e]; reflexivity.
Qed.

(** C5, as the code has it. The deployment routine takes the owner, the
    name, the symbol, the initial supply and the cap, and asks for the
    constructor with these and with [decimals] 0.  It never looks at the
    [isReadCall] flag: once the deployment is assembled the deployer's
    authorization is requested, and once that is signed the transaction is
    sent to the relay.  It succeeds only after all three calls, and then
    returns the relay's answer extended with the address of the new
    contract.  The store is not touched. *)
Theorem deploy_signs_and_submits (ext : Collaborators)
        (owner name symbol : jsstring) (initial_supply cap : Z) (w : World) :
  let args := {| owner := owner; name := name; symbol := symbol; decimals := 0;
                 initial_supply := initial_supply; cap := cap |} in
  let pk := publicKey ext in
  let r := deployNewFungiblePausableToken ext owner name symbol initial_supply cap w in
  (exists rest, calls (snd r) = calls w ++ SimulateDeploy args pk :: rest /\
                forall args' source, In (SimulateDeploy args' source) rest -> False) /\
  (forall at0, Client_deploy ext args pk = Return at0 ->
               In (SignAuthEntries pk) (calls (snd r))) /\
  (forall at0 at1,
      Client_deploy ext args pk = Return at0 ->
      signAuthEntries ext at0 pk = Return at1 ->
      In (RelaySend at1) (calls (snd r))) /\
  (forall v,
      fst r = Return v ->
      exists at0 at1 res contractId,
        Client_deploy ext args pk = Return at0 /\
        signAuthEntries ext at0 pk = Return at1 /\
        server_send ext at1 = Return res /\
        encodeContract ext (retval at1) = Return contractId /\
        v = JSpread res [(js "contractId", JStr contractId)] /\
        calls (snd r)
        = calls w ++ [SimulateDeploy args pk; SignAuthEntries pk; RelaySend at1]) /\
  store (snd r) = store w.
Proof.
  intros args pk r. unfold r.
  rewrite deployNewFungiblePausableToken_spec. fold args. fold pk.
  destruct (Client_deploy ext args pk) as [at0|e0].
  2:{ simpl. split; [|split; [|split; [|split]]].
      - exists []. split; [reflexivity | intros ? ? []].
      - intros; discriminate.
      - intros; discriminate.
      - intros; discriminate.
      - reflexivity. }
  destruct (signAuthEntries ext at0 pk) as [at1|e1] eqn:Hsig.
  2:{ simpl. split; [|split; [|split; [|split]]].
      - exists [SignAuthEntries pk]. split; [reflexivity|].
        intros ? ? [H|[]]; discriminate.
      - intros ? _. apply in_or_app. right. simpl. auto.
      - intros a0 a1 H0 H1. injection H0 as <-. rewrite Hsig in H1. discriminate.
      - intros; discriminate.
      - reflexivity. }
  assert (Hrest : forall args' source,
             In (SimulateDeploy args' source) [SignAuthEntries pk; RelaySend at1] -> False).
  { intros ? ? [H|[H|[]]]; discriminate. }
  assert (Hsign : In (SignAuthEntries pk)
                     (calls w ++ [SimulateDeploy args pk; SignAuthEntries pk; RelaySend at1])).
  { apply in_or_app. right. simpl. auto. }
  assert (Hsend : In (RelaySend at1)
                     (calls w ++ [SimulateDeploy args pk; SignAuthEntries pk; RelaySend at1])).
  { apply in_or_app. right. simpl. auto. }
  cbv zeta.
  destruct (server_send ext at1) as [res|e2] eqn:Hres;
    [destruct (encodeContract ext (retval at1)) as [cid|e3] eqn:Hcid|].
  all: split; [exists [SignAuthEntries pk; RelaySend at1]; split; [reflexivity | exact Hrest]|].
  all: split; [intros ? _; exact Hsign|].
  all: split; [intros a0 a1 H0 H1; injection H0 as <-; rewrite Hsig in H1;
               injection H1 as <-; exact Hsend|].
  all: split; [|reflexivity].
  all: simpl; intros v Hv; try discriminate.
  injection Hv as <-. exists at0, at1, res, cid. repeat split; auto.
Qed.

(** C5, as stated, fails: the routine does not accept [decimals].
    Whatever it is called with, the constructor is asked for with
    [decimals] 0. *)
Lemma deploy_does_not_accept_decimals :
  ~ exists owner name symbol initial_supply cap args source,
      In (SimulateDeploy args source)
         (calls (snd (deployNewFungiblePausableToken demo owner name symbol
                        initial_supply cap fresh_world))) /\
      decimals args <> 0%Z.
Proof.
  intros [owner [name [symbol [initial_supply [cap [args [source [Hin Hdec]]]]]]]].
  simpl in Hin. destruct Hin as [H|[H|[H|[]]]]; try discriminate.
  injection H as <- _. apply Hdec. reflexivity.
Qed.

(** * Further properties of the store *)

(** Deleting rows cannot break the uniqueness of the remaining keys. *)
Lemma remaining_keys_unique (keep : ContractRow -> bool) (rows : list ContractRow) :
  NoDup (map contract_key rows) -> NoDup (map contract_key (filter keep rows)).
Proof.
  induction rows as [|r rows IH]; intros Hnd; [constructor|].
  apply NoDup_cons_iff in Hnd. destruct Hnd as [Hfresh Hrest]. simpl.
  destruct (keep r); [|exact (IH Hrest)].
  simpl. apply NoDup_cons_iff. split; [|exact (IH Hrest)].
  intros Hin. apply Hfresh. revert Hin. apply incl_map, incl_filter.
Qed.

Lemma NoDup_snoc {A : Type} (l : list A) (a : A) :
  NoDup l -> ~ In a l -> NoDup (l ++ [a]).
Proof.
  intros Hnd Hnotin. apply NoDup_app; [exact Hnd | repeat constructor; intros [] |].
  intros x Hx [<-|[]]. exact (Hnotin Hx).
Qed.

Lemma contract_key_match (key : SqlValue) (contract : jsstring) (r : ContractRow) :
  sql_eqb (c_login r) key && jsstring_eqb (c_address r) contract = true <->
  contract_key r = (key, contract).
Proof.
  unfold contract_key. rewrite andb_true_iff, sql_eqb_eq, jsstring_eqb_eq. split.
  - intros [-> ->]. reflexivity.
  - intros H. injection H as -> ->. auto.
Qed.

Lemma contract_key_absent (key : SqlValue) (contract : jsstring) (rows : list ContractRow) :
  existsb (fun r => sql_eqb (c_login r) key && jsstring_eqb (c_address r) contract)
          rows = false <->
  ~ In (key, contract) (map contract_key rows).
Proof.
  induction rows as [|r rows IH]; simpl; [tauto|].
  rewrite orb_false_iff, IH.
  pose proof (contract_key_match key contract r) as Hk.
  destruct (sql_eqb (c_login r) key && jsstring_eqb (c_address r) contract).
  - split; [intros [H _]; discriminate | intros H; exfalso; apply H; left; tauto].
  - split; [|tauto]. intros [_ H] [Heq|Hin]; [|tauto].
    apply Hk in Heq. discriminate.
Qed.

Lemma store_ops_keep_keys (ext : Collaborators) (st : Store) :
  keys_unique st ->
  keys_unique empty_store /\
  (forall login name address st',
      addContract ext login name address st = Return st' -> keys_unique st') /\
  (forall login address st',
      removeContract ext login address st = Return st' -> keys_unique st') /\
  (forall login wallet entropy st',
      setAddress ext login wallet entropy st = Return st' -> keys_unique st').
Proof.
  intros [Ha Hc]. split; [split; constructor|]. split; [|split].
  - intros login name address st'. unfold addContract.
    destruct (Address_toString ext address) as [c|e]; simpl; [|discriminate].
    unfold insert_or_ignore_contract. simpl.
    destruct (existsb _ (contracts st)) eqn:E; intros H; injection H as <-.
    + split; assumption.
    + split; [exact Ha|]. simpl. rewrite map_app. simpl.
      apply NoDup_snoc; [exact Hc|]. apply contract_key_absent. exact E.
  - intros login address st'. unfold removeContract.
    destruct (Address_toString ext address) as [c|e]; simpl; [|discriminate].
    intros H; injection H as <-. split; [exact Ha|]. simpl.
    apply remaining_keys_unique. exact Hc.
  - intros login wallet entropy st'. unfold setAddress.
    destruct (Address_toString ext wallet) as [a|e]; simpl; [|discriminate].
    unfold insert_or_ignore_address. simpl.
    destruct (existsb _ (addresses st)) eqn:E; intros H; injection H as <-.
    + split; assumption.
    + split; [|exact Hc]. simpl. rewrite map_app. simpl.
      apply NoDup_snoc; [exact Ha|]. apply login_absent. exact E.
Qed.

(** X1. The key constraints of the two tables survive every operation of
    the store: at most one wallet record per user and at most one tracked
    row per (user, address), starting from the empty store. *)
Theorem store_keeps_keys_unique (ext : Collaborators) (st : Store) :
  keys_unique st ->
  keys_unique empty_store /\
  (forall login name address st',
      addContract ext login name address st = Return st' -> keys_unique st') /\
  (forall login address st',
      removeContract ext login address st = Return st' -> keys_unique st') /\
  (forall login wallet entropy st',
      setAddress ext login wallet entropy st = Return st' -> keys_unique st').
Proof. exact (store_ops_keep_keys ext st). Qed.

Lemma store_keeps_keys_unique_witness :
  exists st',
    addContract demo (js "alice") (js "Other") (js "COTHER") alice_store = Return st' /\
    keys_unique st'.
Proof.
  assert (H : keys_unique alice_store).
  { split; simpl; repeat (constructor; [simpl; intuition discriminate|]); constructor. }
  eexists. split; [reflexivity|].
  apply (proj1 (proj2 (store_keeps_keys_unique demo alice_store H))
               (js "alice") (js "Other") (js "COTHER")).
  reflexivity.
Defined.

Lemma filter_unique_login (key : SqlValue) (rows : list AddressRow) :
  NoDup (map a_login rows) ->
  filter (fun r => sql_eqb (a_login r) key) rows = [] \/
  exists row, filter (fun r => sql_eqb (a_login r) key) rows = [row].
Proof.
  induction rows as [|r rows IH]; simpl; intros H; [auto|].
  inversion H as [|? ? Hnotin Hnd]; subst.
  destruct (sql_eqb (a_login r) key) eqn:E.
  - right. exists r. f_equal. apply sql_eqb_eq in E. subst key.
    apply filter_none_login. intros row Hrow Heq. apply Hnotin.
    rewrite <- Heq. apply in_map. exact Hrow.
  - apply IH, Hnd.
Qed.

(** X2. While the primary key holds, the wallet lookup has two outcomes
    only: it returns the address and secret of a record exactly when the
    table has that record under the stored value of the login, and it
    throws the no-row exception exactly when no row has that stored login.
    It never finds several rows. *)
Theorem getAddress_finds_the_record (ext : Collaborators) (login : jsstring) (st : Store) :
  NoDup (map a_login (addresses st)) ->
  (forall address sk,
      getAddress ext login st = Return (address, sk) <->
      In {| a_login := affinity ext login; a_address := address; a_sk := sk |}
         (addresses st)) /\
  (getAddress ext login st = Throw (OneRowExpected 0) <->
   forall row, In row (addresses st) -> a_login row <> affinity ext login) /\
  (forall e, getAddress ext login st = Throw e -> e = OneRowExpected 0).
Proof.
  intros Hnd. unfold getAddress.
  pose proof (filter_In (fun r => sql_eqb (a_login r) (affinity ext login))) as Hfilter.
  destruct (filter_unique_login (affinity ext login) (addresses st) Hnd)
    as [Hf | [row Hf]].
  - rewrite Hf. simpl.
    assert (Hnone : forall row, In row (addresses st) -> a_login row <> affinity ext login).
    { intros row Hrow Heq. specialize (Hfilter row (addresses st)).
      rewrite Hf in Hfilter. simpl in Hfilter. apply Hfilter.
      split; [exact Hrow | apply sql_eqb_eq, Heq]. }
    split; [|split].
    + intros address sk. split; [discriminate|].
      intros Hin. exfalso. exact (Hnone _ Hin eq_refl).
    + tauto.
    + intros e H. injection H as <-. reflexivity.
  - rewrite Hf. simpl.
    assert (Hrow : In row (addresses st) /\ a_login row = affinity ext login).
    { specialize (Hfilter row (addresses st)). rewrite Hf in Hfilter.
      rewrite sql_eqb_eq in Hfilter. apply Hfilter. left. reflexivity. }
    destruct Hrow as [Hrow Hlogin]. split; [|split].
    + intros address sk. split.
      * intros H. injection H as <- <-. rewrite <- Hlogin. destruct row. exact Hrow.
      * intros Hin.
        assert (Hin' : In {| a_login := affinity ext login; a_address := address;
                             a_sk := sk |}
                          (filter (fun r => sql_eqb (a_login r) (affinity ext login))
                                  (addresses st))).
        { apply filter_In. split; [exact Hin | apply sql_eqb_refl]. }
        rewrite Hf in Hin'. destruct Hin' as [Heq|[]]. rewrite Heq. reflexivity.
    + split; [discriminate|]. intros Hnone. exfalso. exact (Hnone _ Hrow Hlogin).
    + discriminate.
Qed.

Lemma getAddress_finds_the_record_witness :
  getAddress demo (js "alice") alice_store = Return (js "CWALLET", js "SALICE").
Proof.
  apply (getAddress_finds_the_record demo (js "alice") alice_store).
  - simpl. repeat (constructor; [simpl; intuition discriminate|]). constructor.
  - simpl. left. reflexivity.
Defined.

Lemma store_eta (st : Store) :
  {| addresses := addresses st; contracts := contracts st |} = st.
Proof. destruct st; reflexivity. Qed.

Lemma filter_all {A : Type} (p : A -> bool) (l : list A) :
  (forall x, In x l -> p x = true) -> filter p l = l.
Proof.
  induction l as [|a l IH]; simpl; intros H; [reflexivity|].
  rewrite (H a) by (left; reflexivity). f_equal. apply IH. intros x Hx. apply H. right. exact Hx.
Qed.

(** The user's list is, in some order, the user's rows of the table. *)
Lemma getContracts_rows (ext : Collaborators) (login : jsstring) (st : Store) :
  Permutation (getContracts ext login st)
              (map (fun row => (c_name row, c_address row))
                   (filter (fun r => sql_eqb (c_login r) (affinity ext login))
                           (contracts st))).
Proof. unfold getContracts. apply Permutation_map, query_order_permutes. Qed.

Lemma tracked_address (ext : Collaborators) (login contract : jsstring) (st : Store) :
  In contract (map snd (getContracts ext login st)) <->
  In (affinity ext login, contract) (map contract_key (contracts st)).
Proof.
  assert (Hp : Permutation (map snd (getContracts ext login st))
                           (map c_address
                                (filter (fun r => sql_eqb (c_login r) (affinity ext login))
                                        (contracts st)))).
  { rewrite (Permutation_map snd (getContracts_rows ext login st)), map_map.
    apply Permutation_refl. }
  split.
  - intros Hin. apply (Permutation_in _ Hp) in Hin.
    apply in_map_iff in Hin. destruct Hin as [r [Ha Hr]].
    apply filter_In in Hr. destruct Hr as [Hr Hl]. apply sql_eqb_eq in Hl.
    apply in_map_iff. exists r. split; [|exact Hr].
    unfold contract_key. congruence.
  - intros Hin. apply (Permutation_in _ (Permutation_sym Hp)).
    apply in_map_iff in Hin. destruct Hin as [r [Hk Hr]].
    unfold contract_key in Hk. injection Hk as Hl Ha.
    apply in_map_iff. exists r. split; [exact Ha|].
    apply filter_In. split; [exact Hr | apply sql_eqb_eq, Hl].
Qed.

(** X3. Tracking a contract the user does not track yet adds one entry to
    that user's list and takes none away: the list is then, in some order,
    the earlier entries and the new one, whose name is the given name as
    the column holds it and whose address is the address as [Address]
    prints it.  The lists of users with another stored login and the
    wallet records stay as they are. *)
Theorem addContract_adds_entry (ext : Collaborators)
        (login name address contract : jsstring) (st : Store) :
  Address_toString ext address = Return contract ->
  ~ In contract (map snd (getContracts ext login st)) ->
  exists st',
    addContract ext login name address st = Return st' /\
    Permutation (getContracts ext login st')
                ((affinity ext name, contract) :: getContracts ext login st) /\
    (forall other, affinity ext other <> affinity ext login ->
                   getContracts ext other st' = getContracts ext other st) /\
    addresses st' = addresses st.
Proof.
  intros Haddr Habsent.
  assert (E : existsb (fun r => sql_eqb (c_login r) (affinity ext login)
                                && jsstring_eqb (c_address r) contract)
                      (contracts st) = false).
  { apply contract_key_absent. intros Hin. apply Habsent, tracked_address, Hin. }
  exists {| addresses := addresses st;
            contracts := contracts st ++
                         [ {| c_login := affinity ext login; c_name := affinity ext name;
                              c_address := contract |} ] |}.
  unfold addContract. rewrite Haddr. simpl.
  unfold insert_or_ignore_contract. simpl. rewrite E.
  split; [reflexivity|]. split; [|split; [|reflexivity]].
  - rewrite (getContracts_rows ext login _). simpl.
    rewrite filter_app, map_app. simpl. rewrite sql_eqb_refl. simpl.
    rewrite <- Permutation_cons_append. apply perm_skip.
    apply Permutation_sym, getContracts_rows.
  - intros other Hother. unfold getContracts. simpl. rewrite filter_app. simpl.
    assert (E' : sql_eqb (affinity ext login) (affinity ext other) = false)
      by (apply sql_eqb_neq; congruence).
    rewrite E'. rewrite app_nil_r. reflexivity.
Qed.

Lemma addContract_adds_entry_witness :
  exists st',
    addContract demo (js "alice") (js "Other") (js "COTHER") alice_store = Return st' /\
    Permutation (getContracts demo (js "alice") st')
                [(SqlText (js "Other"), js "COTHER"); (SqlText (js "Broken"), js "CBROKEN");
                 (SqlText (js "Token"), js "CTOKEN")].
Proof.
  destruct (addContract_adds_entry demo (js "alice") (js "Other") (js "COTHER")
                                (js "COTHER") alice_store)
    as [st' [H1 [H2 _]]].
  - reflexivity.
  - simpl. intuition discriminate.
  - exists st'. split; [exact H1 | exact H2].
Defined.

(** Selecting rows commutes with reordering them. *)
Lemma selection_permutes {A : Type} (p : A -> bool) (l l' : list A) :
  Permutation l l' -> Permutation (filter p l) (filter p l').
Proof.
  induction 1 as [|x l l' _ IH|x y l|l l' l'' _ IH1 _ IH2]; simpl.
  - constructor.
  - destruct (p x); [apply perm_skip|]; exact IH.
  - destruct (p x), (p y); try apply Permutation_refl. apply perm_swap.
  - exact (Permutation_trans IH1 IH2).
Qed.

(** X4. Removing a contract takes the entries with that address out of
    the user's list and nothing else: the list is then, in some order, the
    earlier entries with another address.  The lists of users with another
    stored login and the wallet records are untouched, and removing again
    changes nothing (so removing an untracked address is not an error). *)
Theorem removeContract_removes (ext : Collaborators)
        (login address contract : jsstring) (st : Store) :
  Address_toString ext address = Return contract ->
  exists st',
    removeContract ext login address st = Return st' /\
    Permutation (getContracts ext login st')
                (filter (fun entry => negb (jsstring_eqb (snd entry) contract))
                        (getContracts ext login st)) /\
    ~ In contract (map snd (getContracts ext login st')) /\
    (forall other, affinity ext other <> affinity ext login ->
                   getContracts ext other st' = getContracts ext other st) /\
    addresses st' = addresses st /\
    removeContract ext login address st' = Return st'.
Proof.
  intros Haddr. unfold removeContract. rewrite Haddr. simpl.
  eexists. split; [reflexivity|].
  set (keep := fun r => negb (sql_eqb (c_login r) (affinity ext login)
                                && jsstring_eqb (c_address r) contract)).
  split; [|split; [|split; [|split; [reflexivity|]]]].
  - eapply Permutation_trans; [apply getContracts_rows|]. simpl.
    apply Permutation_sym.
    unfold getContracts. rewrite filter_map_swap. simpl. apply Permutation_map.
    eapply Permutation_trans;
      [apply selection_permutes, query_order_permutes|].
    assert (Heq : forall rows,
               filter (fun x => negb (jsstring_eqb (c_address x) contract))
                      (filter (fun r => sql_eqb (c_login r) (affinity ext login)) rows)
               = filter (fun r => sql_eqb (c_login r) (affinity ext login))
                        (filter keep rows)).
    { induction rows as [|r rows IH]; simpl; [reflexivity|]. unfold keep at 1.
      destruct (sql_eqb (c_login r) (affinity ext login)) eqn:E1; simpl.
      - destruct (jsstring_eqb (c_address r) contract) eqn:E2; simpl.
        + exact IH.
        + rewrite E1. f_equal. exact IH.
      - rewrite E1. exact IH. }
    rewrite Heq. apply Permutation_refl.
  - intros Hin. apply tracked_address in Hin. simpl in Hin.
    apply in_map_iff in Hin. destruct Hin as [r [Hk Hr]].
    apply filter_In in Hr. destruct Hr as [_ Hkeep]. unfold keep in Hkeep.
    apply contract_key_match in Hk. rewrite Hk in Hkeep. discriminate.
  - intros other Hother. unfold getContracts. simpl. f_equal. f_equal.
    induction (contracts st) as [|r rows IH]; simpl; [reflexivity|]. unfold keep at 1.
    destruct (sql_eqb (c_login r) (affinity ext login)) eqn:E1; simpl.
    + assert (E3 : sql_eqb (c_login r) (affinity ext other) = false).
      { apply sql_eqb_eq in E1. apply sql_eqb_neq. congruence. }
      destruct (jsstring_eqb (c_address r) contract); simpl; rewrite ?E3; exact IH.
    + destruct (sql_eqb (c_login r) (affinity ext other)); simpl; [f_equal|]; exact IH.
  - f_equal. f_equal. apply filter_all. intros r Hr.
    apply filter_In in Hr. tauto.
Qed.

Lemma removeContract_removes_witness :
  exists st',
    removeContract demo (js "alice") (js "CBROKEN") alice_store = Return st' /\
    Permutation (getContracts demo (js "alice") st')
                [(SqlText (js "Token"), js "CTOKEN")].
Proof.
  destruct (removeContract_removes demo (js "alice") (js "CBROKEN") (js "CBROKEN")
                                   alice_store)
    as [st' [H1 [H2 _]]].
  - reflexivity.
  - exists st'. split; [exact H1 | exact H2].
Defined.

(** X5. Tracking a contract that was not tracked and then removing it
    gives back the store one started from. *)
Theorem add_then_remove_restores (ext : Collaborators)
        (login name address contract : jsstring) (st : Store) :
  Address_toString ext address = Return contract ->
  ~ In contract (map snd (getContracts ext login st)) ->
  bindR (addContract ext login name address st) (removeContract ext login address)
  = Return st.
Proof.
  intros Haddr Habsent.
  assert (E : existsb (fun r => sql_eqb (c_login r) (affinity ext login)
                                && jsstring_eqb (c_address r) contract)
                      (contracts st) = false).
  { apply contract_key_absent. intros Hin. apply Habsent, tracked_address, Hin. }
  assert (Hnone : forall r, In r (contracts st) ->
                            negb (sql_eqb (c_login r) (affinity ext login)
                                  && jsstring_eqb (c_address r) contract) = true).
  { intros r Hr. apply negb_true_iff, not_true_is_false. intros Hm.
    assert (Hex : existsb (fun r => sql_eqb (c_login r) (affinity ext login)
                                    && jsstring_eqb (c_address r) contract)
                          (contracts st) = true)
      by (apply existsb_exists; exists r; auto).
    congruence. }
  unfold addContract. rewrite Haddr. simpl.
  unfold insert_or_ignore_contract. simpl. rewrite E.
  unfold removeContract. rewrite Haddr. simpl.
  rewrite filter_app. simpl. rewrite sql_eqb_refl, jsstring_eqb_refl. simpl.
  rewrite app_nil_r, (filter_all _ _ Hnone). rewrite store_eta. reflexivity.
Qed.

Lemma add_then_remove_restores_witness :
  bindR (addContract demo (js "alice") (js "Other") (js "COTHER") alice_store)
        (removeContract demo (js "alice") (js "COTHER"))
  = Return alice_store.
Proof.
  apply (add_then_remove_restores demo (js "alice") (js "Other") (js "COTHER")
                                  (js "COTHER") alice_store).
  - reflexivity.
  - simpl. intuition discriminate.
Defined.

(** * Further properties of tool names and schemas *)

Lemma replace_unsafe_app (a b : jsstring) :
  replace_unsafe (a ++ b) = replace_unsafe a ++ replace_unsafe b.
Proof. apply map_app. Qed.

Lemma replace_unsafe_id (s : jsstring) :
  Forall (fun c => tool_char c = true) s -> replace_unsafe s = s.
Proof.
  induction 1 as [|c s Hc _ IH]; simpl; [reflexivity|].
  rewrite Hc. f_equal. exact IH.
Qed.

Lemma replace_unsafe_idem (s : jsstring) :
  replace_unsafe (replace_unsafe s) = replace_unsafe s.
Proof. apply replace_unsafe_id, replace_unsafe_safe. Qed.

Lemma startsWith_cons (b a : N) (s p : jsstring) :
  startsWith (b :: s) (a :: p) = N.eqb a b && startsWith s p.
Proof. reflexivity. Qed.

Lemma includes_cons (x : N) (s p : jsstring) :
  includes (x :: s) p = startsWith (x :: s) p || includes s p.
Proof. reflexivity. Qed.

Lemma collapse_separator (c f : jsstring) :
  includes c (js "__") = false ->
  replace_first (c ++ js "__" ++ f) (js "__") (js "_") = c ++ js "_" ++ f.
Proof.
  change (js "__") with [95%N; 95%N]. change (js "_") with [95%N].
  induction c as [|x c IH]; intros Hc; [reflexivity|].
  rewrite includes_cons in Hc. apply orb_false_iff in Hc. destruct Hc as [Hhead Hc].
  rewrite replace_first_unfold.
  destruct (startsWith ((x :: c) ++ [95%N; 95%N] ++ f) [95%N; 95%N]) eqn:E.
  - destruct c as [|y c].
    + change (([x] ++ [95%N; 95%N] ++ f)) with (x :: 95%N :: 95%N :: f) in *.
      rewrite startsWith_cons in E. apply andb_true_iff in E. destruct E as [E _].
      apply N.eqb_eq in E. subst x. reflexivity.
    + exfalso.
      change ((x :: y :: c) ++ [95%N; 95%N] ++ f)
        with (x :: y :: (c ++ [95%N; 95%N] ++ f)) in E.
      rewrite !startsWith_cons in E, Hhead.
      destruct (N.eqb 95 x); [|discriminate].
      destruct (N.eqb 95 y); discriminate.
  - change ((x :: c) ++ [95%N; 95%N] ++ f) with (x :: (c ++ [95%N; 95%N] ++ f)).
    change ((x :: c) ++ [95%N] ++ f) with (x :: (c ++ [95%N] ++ f)).
    cbv iota. f_equal. apply IH, Hc.
Qed.

(** X6. For a contract name and a function name made of letters, digits,
    underscores and hyphens, with no double underscore in the contract
    name and at most 62 code units together, the tool is called
    "<contractName>_<functionName>". *)
Theorem toolName_of_plain_names (contract_name func_name : jsstring) :
  Forall (fun c => tool_char c = true) contract_name ->
  Forall (fun c => tool_char c = true) func_name ->
  includes contract_name (js "__") = false ->
  List.length contract_name + List.length func_name <= 62 ->
  toolName contract_name func_name = contract_name ++ js "_" ++ func_name.
Proof.
  intros Hc Hf Hmark Hlen. unfold toolName, substring0.
  rewrite !replace_unsafe_app, (replace_unsafe_id _ Hc), (replace_unsafe_id _ Hf).
  change (replace_unsafe (js ": ")) with (js "__").
  rewrite firstn_all2.
  - apply collapse_separator, Hmark.
  - rewrite !length_app. change (List.length (js "__")) with 2. lia.
Qed.

Lemma toolName_of_plain_names_witness :
  toolName (js "Token") (js "transfer_from") = js "Token_transfer_from".
Proof.
  apply (toolName_of_plain_names (js "Token") (js "transfer_from")).
  - repeat constructor.
  - repeat constructor.
  - reflexivity.
  - simpl. lia.
Defined.

(** X7. A contract name of 62 code units or more leaves no room for the
    function name: all functions of that contract get the same tool name. *)
Theorem toolName_long_contract_name (contract_name func_name func_name' : jsstring) :
  62 <= List.length contract_name ->
  toolName contract_name func_name = toolName contract_name func_name'.
Proof.
  intros Hlen. unfold toolName, substring0.
  assert (Hcut : forall f,
             firstn 64 (replace_unsafe (contract_name ++ js ": " ++ f))
             = firstn 64 (replace_unsafe (contract_name ++ js ": "))).
  { intros f. rewrite app_assoc, replace_unsafe_app, firstn_app.
    assert (Hl : List.length (replace_unsafe (contract_name ++ js ": ")) = List.length contract_name + 2).
    { unfold replace_unsafe. rewrite length_map, length_app. reflexivity. }
    rewrite Hl. replace (64 - (List.length contract_name + 2)) with 0 by lia.
    simpl. apply app_nil_r. }
  rewrite (Hcut func_name), (Hcut func_name'). reflexivity.
Qed.

Lemma toolName_long_contract_name_witness :
  toolName (repeat 97%N 62) (js "balance") = toolName (repeat 97%N 62) (js "transfer").
Proof.
  apply (toolName_long_contract_name (repeat 97%N 62) (js "balance") (js "transfer")).
  rewrite repeat_length. lia.
Defined.

(** X8. The tool name only sees the sanitized names: a pair of names and
    the pair of their sanitized forms get the same tool name, so names
    that differ in replaced characters only (a space against an
    underscore, say) collide. *)
Theorem toolName_of_sanitized_names (contract_name func_name : jsstring) :
  toolName (replace_unsafe contract_name) (replace_unsafe func_name)
  = toolName contract_name func_name.
Proof.
  unfold toolName. rewrite !replace_unsafe_app, !replace_unsafe_idem. reflexivity.
Qed.

Lemma Map_set_keys (k : jsstring) (v : Param) (m : list (jsstring * Param)) :
  map fst (Map_set k v m)
  = if existsb (jsstring_eqb k) (map fst m) then map fst m else map fst m ++ [k].
Proof.
  induction m as [|[k' v'] m IH]; simpl; [reflexivity|].
  destruct (jsstring_eqb k' k) eqn:E.
  - apply jsstring_eqb_eq in E. subst k'. rewrite jsstring_eqb_refl. reflexivity.
  - assert (E' : jsstring_eqb k k' = false).
    { apply jsstring_eqb_neq. apply jsstring_eqb_neq in E. congruence. }
    rewrite E'. simpl. rewrite IH.
    destruct (existsb (jsstring_eqb k) (map fst m)); reflexivity.
Qed.

Lemma existsb_eqb_In (k : jsstring) (l : list jsstring) :
  existsb (jsstring_eqb k) l = true <-> In k l.
Proof.
  rewrite existsb_exists. split.
  - intros [x [Hx E]]. apply jsstring_eqb_eq in E. subst x. exact Hx.
  - intros H. exists k. split; [exact H | apply jsstring_eqb_refl].
Qed.

Lemma Map_set_lookup (k : jsstring) (v : Param) (m : list (jsstring * Param)) :
  In (k, v) (Map_set k v m) /\
  forall k' v', k' <> k -> (In (k', v') (Map_set k v m) <-> In (k', v') m).
Proof.
  induction m as [|[k0 v0] m [IH1 IH2]]; simpl.
  - split; [left; reflexivity|]. intros k' v' Hk. split; [|tauto].
    intros [H|[]]. injection H as H _. congruence.
  - destruct (jsstring_eqb k0 k) eqn:E.
    + apply jsstring_eqb_eq in E. subst k0. split; [left; reflexivity|].
      intros k' v' Hk. simpl. split; intros [H|H]; try tauto;
        injection H as H _; congruence.
    + split; [right; exact IH1|]. intros k' v' Hk. simpl. rewrite (IH2 k' v' Hk). tauto.
Qed.

Lemma fold_Map_set_keys (inputs : list FuncInput) (acc : list (jsstring * Param)) :
  NoDup (map fst acc) ->
  let params :=
      fold_left (fun params input =>
                   Map_set (input_name input)
                           {| describe := input_doc input;
                              transform := NativeToScVal (input_type input) |}
                           params)
                inputs acc in
  NoDup (map fst params) /\
  forall k, In k (map fst params) <-> In k (map fst acc) \/ In k (map input_name inputs).
Proof.
  revert acc. induction inputs as [|input inputs IH]; intros acc Hnd; simpl.
  - split; [exact Hnd | tauto].
  - set (acc' := Map_set (input_name input) _ acc).
    assert (Hkeys : map fst acc'
                    = if existsb (jsstring_eqb (input_name input)) (map fst acc)
                      then map fst acc else map fst acc ++ [input_name input])
      by apply Map_set_keys.
    assert (Hnd' : NoDup (map fst acc')).
    { rewrite Hkeys.
      destruct (existsb (jsstring_eqb (input_name input)) (map fst acc)) eqn:E;
        [exact Hnd|].
      apply NoDup_snoc; [exact Hnd|]. intros Hin.
      apply existsb_eqb_In in Hin. congruence. }
    destruct (IH acc' Hnd') as [H1 H2]. split; [exact H1|].
    intros k. rewrite H2, Hkeys.
    destruct (existsb (jsstring_eqb (input_name input)) (map fst acc)) eqn:E.
    + apply existsb_eqb_In in E. split; [tauto|].
      intros [H|[<-|H]]; tauto.
    + rewrite in_app_iff. simpl. tauto.
Qed.

(** X9. The parameter schema of a synthesized tool has one entry per
    distinct input name of the function: its keys are exactly the input
    names, none twice, and the entry of the last input of the function is
    the one built from that input (a repeated name keeps the later
    description and type). *)
Theorem func_params_keys (func : Func) :
  NoDup (map fst (func_params func)) /\
  (forall k, In k (map fst (func_params func)) <-> In k (map input_name (func_inputs func))) /\
  (forall inputs input,
      func_inputs func = inputs ++ [input] ->
      In (input_name input,
          {| describe := input_doc input; transform := NativeToScVal (input_type input) |})
         (func_params func)).
Proof.
  unfold func_params.
  destruct (fold_Map_set_keys (func_inputs func) [] (NoDup_nil _)) as [H1 H2].
  split; [exact H1|]. split.
  - intros k. rewrite H2. simpl. tauto.
  - intros inputs input ->. rewrite fold_left_app. simpl.
    exact (proj1 (Map_set_lookup _ _ _)).
Qed.

(** * Further properties of the contract tools *)

Lemma add_calls_nil (w : World) : add_calls [] w = w.
Proof. destruct w; unfold add_calls; simpl. rewrite app_nil_r. reflexivity. Qed.

(** The mutation branch, outcome by outcome. *)
Lemma mutation_branch_spec (ext : Collaborators) (login : jsstring)
      (at_ : AssembledTransaction) (json : jsstring) (w : World) :
  try_catch
    (address_sk <- stub_getAddress ext login ;;
     let '(address, sk) := address_sk in
     _ <- lift (Keypair_publicKey ext sk) ;;
     call (WalletSign address sk) ;;;
     at_ <- lift (wallet_sign ext at_ address sk) ;;
     call (RelaySend at_) ;;;
     res <- lift (server_send ext at_) ;;
     result <- lift (JSON_parse ext json) ;;
     ret (text_envelope
            (Stringify (JObj [(js "result", result); (js "success", res)]))))
    (fun err => ret (text_envelope (Stringify (JErr err)))) w
  =
  match getAddress ext login (store w) with
  | Throw e => (Return (text_envelope (Stringify (JErr e))), w)
  | Return (address, sk) =>
      match Keypair_publicKey ext sk with
      | Throw e => (Return (text_envelope (Stringify (JErr e))), w)
      | Return _ =>
          match wallet_sign ext at_ address sk with
          | Throw e => (Return (text_envelope (Stringify (JErr e))),
                        add_calls [WalletSign address sk] w)
          | Return at1 =>
              let w' := add_calls [WalletSign address sk; RelaySend at1] w in
              match server_send ext at1 with
              | Throw e => (Return (text_envelope (Stringify (JErr e))), w')
              | Return res =>
                  match JSON_parse ext json with
                  | Throw e => (Return (text_envelope (Stringify (JErr e))), w')
                  | Return result =>
                      (Return (text_envelope
                                 (Stringify (JObj [(js "result", result);
                                                   (js "success", res)]))), w')
                  end
              end
          end
      end
  end.
Proof.
  unfold try_catch, bind. rewrite stub_getAddress_spec.
  destruct (getAddress ext login (store w)) as [[address sk]|e]; [|reflexivity].
  unfold lift, call, ret, add_calls. simpl.
  destruct (Keypair_publicKey ext sk); simpl; [|reflexivity].
  destruct (wallet_sign ext at_ address sk) as [at1|]; simpl; [|reflexivity].
  rewrite <- app_assoc. simpl.
  destruct (server_send ext at1); simpl; [|reflexivity].
  destruct (JSON_parse ext json); reflexivity.
Qed.

(** The handler of a contract tool, outcome by outcome. *)
Lemma contract_function_handler_spec (ext : Collaborators) (login : jsstring)
      (contractId func_name : jsstring) (params : list ScVal) (w : World) :
  contract_function_handler ext login contractId func_name params w =
  match Address_toString ext contractId with
  | Throw e => (Return (text_envelope (Stringify (JErr e))), w)
  | Return contractAddress =>
      let w1 := add_calls [Simulate contractAddress func_name params] w in
      match buildWithOp ext contractAddress func_name params with
      | Throw e => (Return (text_envelope (Stringify (JErr e))), w1)
      | Return at_ =>
          match decode_ScVal ext (retval at_) with
          | Throw e => (Return (text_envelope (Stringify (JErr e))), w1)
          | Return json =>
              if isReadCall at_ then (Return (text_envelope (Plain json)), w1)
              else
                try_catch
                  (address_sk <- stub_getAddress ext login ;;
                   let '(address, sk) := address_sk in
                   _ <- lift (Keypair_publicKey ext sk) ;;
                   call (WalletSign address sk) ;;;
                   at_ <- lift (wallet_sign ext at_ address sk) ;;
                   call (RelaySend at_) ;;;
                   res <- lift (server_send ext at_) ;;
                   result <- lift (JSON_parse ext json) ;;
                   ret (text_envelope
                          (Stringify (JObj [(js "result", result); (js "success", res)]))))
                  (fun err => ret (text_envelope (Stringify (JErr err)))) w1
          end
      end
  end.
Proof.
  destruct (Address_toString ext contractId) as [ca|e] eqn:Ha.
  - destruct (buildWithOp ext ca func_name params) as [at_|e] eqn:Hb.
    + destruct (decode_ScVal ext (retval at_)) as [json|e] eqn:Hd.
      * apply (contract_function_handler_simulated ext login contractId func_name params w
                 ca json at_ Ha Hb Hd).
      * unfold contract_function_handler, try_catch, bind, lift, call, ret.
        rewrite Ha, Hb, Hd. reflexivity.
    + unfold contract_function_handler, try_catch, bind, lift, call, ret.
      rewrite Ha, Hb. reflexivity.
  - unfold contract_function_handler, try_catch, bind, lift, call, ret.
    rewrite Ha. reflexivity.
Qed.

Ltac split_handler ext login at_ json :=
  rewrite contract_function_handler_spec;
  destruct (Address_toString ext _) as [?ca|?e] eqn:?Ha; cbv zeta;
  [ destruct (buildWithOp ext _ _ _) as [at_|?e] eqn:?Hb;
    [ destruct (decode_ScVal ext (retval at_)) as [json|?e] eqn:?Hd;
      [ destruct (isReadCall at_) eqn:?Hread;
        [ | rewrite mutation_branch_spec; simpl store;
            destruct (getAddress ext login _) as [[?address ?sk]|?e] eqn:?Hw;
            [ destruct (Keypair_publicKey ext _) as [?pk|?e] eqn:?Hk;
              [ destruct (wallet_sign ext at_ _ _) as [?at1|?e] eqn:?Hs; cbv zeta;
                [ destruct (server_send ext _) as [?res|?e] eqn:?Hr;
                  [ destruct (JSON_parse ext json) as [?result|?e] eqn:?Hj | ]
                | ]
              | ]
            | ] ]
      | ]
    | ]
  | ].

(** X10. A contract tool always answers with an envelope, whatever its
    collaborators do.  It never writes to the store, draws no entropy and
    registers nothing; it asks for at most one simulation, and it sends at
    most one transaction to the relay (there is no retry). *)
Theorem contract_function_handler_safe (ext : Collaborators) (login : jsstring)
        (contractId func_name : jsstring) (params : list ScVal) (w : World) :
  (exists envelope,
      fst (contract_function_handler ext login contractId func_name params w)
      = Return envelope) /\
  same_session (snd (contract_function_handler ext login contractId func_name params w)) w /\
  exists new,
    calls (snd (contract_function_handler ext login contractId func_name params w))
    = calls w ++ new /\
    List.length (filter is_submission new) <= 1 /\
    List.length (filter (fun c => match c with Simulate _ _ _ => true | _ => false end) new)
    <= 1 /\
    Forall (fun c => is_fetch c = false) new.
Proof.
  split_handler ext login at_ json; simpl;
    (split; [eexists; reflexivity|]);
    (split; [repeat split|]);
    rewrite <- ?app_assoc; simpl;
    try (exists []; rewrite app_nil_r; simpl; repeat split; auto; fail);
    (eexists; split; [reflexivity|]; simpl; repeat split; auto; repeat constructor).
Qed.

(** X11. A contract tool bound to a malformed contract address answers
    with the error envelope of the address parser and does nothing else:
    no outbound call, no change of state. *)
Theorem handler_rejects_malformed_contract (ext : Collaborators) (login : jsstring)
        (contractId func_name : jsstring) (params : list ScVal) (w : World) (e : Exn) :
  Address_toString ext contractId = Throw e ->
  contract_function_handler ext login contractId func_name params w
  = (Return (text_envelope (Stringify (JErr e))), w).
Proof.
  intros Ha. rewrite contract_function_handler_spec, Ha. reflexivity.
Qed.

Lemma handler_rejects_malformed_contract_witness :
  contract_function_handler demo (js "alice") (js "token") (js "balance") []
                            (world_of alice_store)
  = (Return (text_envelope (Stringify (JErr (InvalidAddress (js "token"))))),
     world_of alice_store).
Proof.
  apply (handler_rejects_malformed_contract demo (js "alice") (js "token") (js "balance")
           [] (world_of alice_store) (InvalidAddress (js "token"))).
  reflexivity.
Defined.



(** X13. A mutation by a user with a wallet, when every collaborator
    succeeds: the handler simulates, signs with the address and the secret
    of the user's stored record, submits the signed transaction, in that
    order and once each, and answers with the decoded return value and the
    relay's answer.  The store is not written. *)
Theorem mutation_signs_then_submits (ext : Collaborators) (login : jsstring)
        (contractId func_name : jsstring) (params : list ScVal) (w : World)
        (contractAddress json address sk pk : jsstring)
        (at_ at1 : AssembledTransaction) (res result : JsValue) :
  Address_toString ext contractId = Return contractAddress ->
  buildWithOp ext contractAddress func_name params = Return at_ ->
  decode_ScVal ext (retval at_) = Return json ->
  isReadCall at_ = false ->
  getAddress ext login (store w) = Return (address, sk) ->
  Keypair_publicKey ext sk = Return pk ->
  wallet_sign ext at_ address sk = Return at1 ->
  server_send ext at1 = Return res ->
  JSON_parse ext json = Return result ->
  contract_function_handler ext login contractId func_name params w
  = (Return (text_envelope
               (Stringify (JObj [(js "result", result); (js "success", res)]))),
     add_calls [Simulate contractAddress func_name params;
                WalletSign address sk; RelaySend at1] w).
Proof.
  intros Ha Hb Hd Hread Hw Hk Hs Hr Hj.
  rewrite contract_function_handler_spec, Ha, Hb, Hd, Hread. cbv zeta.
  rewrite mutation_branch_spec. simpl store. rewrite Hw, Hk, Hs. cbv zeta.
  rewrite Hr, Hj, add_calls_app. reflexivity.
Qed.

Lemma mutation_signs_then_submits_witness :
  calls (snd (contract_function_handler demo (js "alice") (js "CTOKEN") (js "transfer")
                                        [js "CWALLET"; js "GBOB"; js "5"]
                                        (world_of alice_store)))
  = [Simulate (js "CTOKEN") (js "transfer") [js "CWALLET"; js "GBOB"; js "5"];
     WalletSign (js "CWALLET") (js "SALICE");
     RelaySend {| isReadCall := false; needsNonInvokerSigningBy := [js "CWALLET"];
                  retval := js "null"; signedBy := [js "CWALLET"] |}].
Proof.
  rewrite (mutation_signs_then_submits demo (js "alice") (js "CTOKEN") (js "transfer")
             [js "CWALLET"; js "GBOB"; js "5"] (world_of alice_store)
             (js "CTOKEN") (js "null") (js "CWALLET") (js "SALICE") (js "GSALICE")
             (demo_simulation (js "transfer"))
             {| isReadCall := false; needsNonInvokerSigningBy := [js "CWALLET"];
                retval := js "null"; signedBy := [js "CWALLET"] |}
             (JOpaque (js "ok")) (JOpaque (js "null")));
    reflexivity.
Defined.

(** X14. Whatever the collaborators do, a transaction that a contract tool
    sends to the relay is one the wallet signed for the invoking user: the
    call was simulated and not flagged as a read, the user has a wallet
    record, and the transaction is what signing the simulated transaction
    with that record's address and secret returned. *)
Theorem submission_is_signed_by_the_user (ext : Collaborators) (login : jsstring)
        (contractId func_name : jsstring) (params : list ScVal) (w : World)
        (tx : AssembledTransaction) :
  In (RelaySend tx)
     (calls (snd (contract_function_handler ext login contractId func_name params w))) ->
  In (RelaySend tx) (calls w) \/
  exists contractAddress at_ address sk,
    Address_toString ext contractId = Return contractAddress /\
    buildWithOp ext contractAddress func_name params = Return at_ /\
    isReadCall at_ = false /\
    getAddress ext login (store w) = Return (address, sk) /\
    wallet_sign ext at_ address sk = Return tx.
Proof.
  split_handler ext login at_ json; simpl; rewrite <- ?app_assoc; simpl;
    intros Hin; try (left; exact Hin);
    apply in_app_or in Hin; destruct Hin as [Hin|Hin];
    try (left; exact Hin);
    simpl in Hin;
    repeat (destruct Hin as [Hin|Hin]; try discriminate Hin);
    try contradiction;
    injection Hin as <-; right; eauto 10.
Qed.

Lemma submission_is_signed_by_the_user_witness :
  exists at_,
    buildWithOp demo (js "CTOKEN") (js "transfer") [] = Return at_ /\
    wallet_sign demo at_ (js "CWALLET") (js "SALICE")
    = Return {| isReadCall := false; needsNonInvokerSigningBy := [js "CWALLET"];
                retval := js "null"; signedBy := [js "CWALLET"] |}.
Proof.
  destruct (submission_is_signed_by_the_user demo (js "alice") (js "CTOKEN")
              (js "transfer") [] (world_of alice_store)
              {| isReadCall := false; needsNonInvokerSigningBy := [js "CWALLET"];
                 retval := js "null"; signedBy := [js "CWALLET"] |})
    as [H | [ca [at_ [address [sk [Ha [Hb [_ [Hw Hs]]]]]]]]].
  - simpl. right. right. left. reflexivity.
  - destruct H.
  - injection Ha as <-. injection Hw as <- <-. exists at_. split; assumption.
Defined.

(** X15. Failures after the wallet lookup.  When signing fails nothing is
    sent to the relay.  When the relay refuses the transaction the handler
    answers with the relay's error, having sent the transaction once: it
    does not try again. *)
Theorem mutation_failures (ext : Collaborators) (login : jsstring)
        (contractId func_name : jsstring) (params : list ScVal) (w : World)
        (contractAddress json address sk pk : jsstring) (at_ : AssembledTransaction)
        (e : Exn) :
  Address_toString ext contractId = Return contractAddress ->
  buildWithOp ext contractAddress func_name params = Return at_ ->
  decode_ScVal ext (retval at_) = Return json ->
  isReadCall at_ = false ->
  getAddress ext login (store w) = Return (address, sk) ->
  Keypair_publicKey ext sk = Return pk ->
  (wallet_sign ext at_ address sk = Throw e ->
   contract_function_handler ext login contractId func_name params w
   = (Return (text_envelope (Stringify (JErr e))),
      add_calls [Simulate contractAddress func_name params; WalletSign address sk] w)) /\
  (forall at1,
      wallet_sign ext at_ address sk = Return at1 ->
      server_send ext at1 = Throw e ->
      contract_function_handler ext login contractId func_name params w
      = (Return (text_envelope (Stringify (JErr e))),
         add_calls [Simulate contractAddress func_name params;
                    WalletSign address sk; RelaySend at1] w)).
Proof.
  intros Ha Hb Hd Hread Hw Hk.
  rewrite contract_function_handler_spec, Ha, Hb, Hd, Hread. cbv zeta.
  rewrite mutation_branch_spec. simpl store. rewrite Hw, Hk. split.
  - intros Hs. rewrite Hs, add_calls_app. reflexivity.
  - intros at1 Hs Hr. rewrite Hs. cbv zeta. rewrite Hr, add_calls_app. reflexivity.
Qed.

Lemma mutation_failures_witness :
  contract_function_handler (flaky false false true false) (js "alice") (js "CTOKEN")
                            (js "transfer") [] (world_of alice_store)
  = (Return (text_envelope (Stringify (JErr (SignError (js "no signer"))))),
     add_calls [Simulate (js "CTOKEN") (js "transfer") [];
                WalletSign (js "CWALLET") (js "SALICE")] (world_of alice_store)).
Proof.
  apply (mutation_failures (flaky false false true false) (js "alice") (js "CTOKEN")
           (js "transfer") [] (world_of alice_store) (js "CTOKEN") (js "null")
           (js "CWALLET") (js "SALICE") (js "GSALICE") (demo_simulation (js "transfer"))
           (SignError (js "no signer"))); reflexivity.
Defined.

(** * Further properties of the fixed tools *)

Lemma getAddress_of_record (ext : Collaborators) (login : jsstring)
      (row : AddressRow) (st : Store) :
  NoDup (map a_login (addresses st)) ->
  In row (addresses st) ->
  a_login row = affinity ext login ->
  getAddress ext login st = Return (a_address row, a_sk row).
Proof.
  intros Hnd Hin Hlogin. unfold getAddress.
  assert (Hf : In row (filter (fun r => sql_eqb (a_login r) (affinity ext login))
                              (addresses st))).
  { apply filter_In. split; [exact Hin | apply sql_eqb_eq, Hlogin]. }
  destruct (filter_unique_login (affinity ext login) (addresses st) Hnd)
    as [E | [row' E]]; rewrite E in *.
  - destruct Hf.
  - destruct Hf as [->|[]]. reflexivity.
Qed.

(** X16. For a user whose wallet record is in the store, under the login
    as the column stores it, the [getWallet] tool answers with the address
    of that record and changes nothing. *)
Theorem getWallet_answers_with_address (ext : Collaborators)
        (login address sk : jsstring) (w : World) :
  NoDup (map a_login (addresses (store w))) ->
  In {| a_login := affinity ext login; a_address := address; a_sk := sk |}
     (addresses (store w)) ->
  getWallet_handler ext login w
  = (Return (text_envelope (Plain (js "Wallet address is " ++ address))), w).
Proof.
  intros Hnd Hin. rewrite getWallet_handler_spec.
  rewrite (getAddress_of_record ext login _ (store w) Hnd Hin eq_refl). reflexivity.
Qed.

Lemma getWallet_answers_with_address_witness :
  getWallet_handler demo (js "alice") (world_of alice_store)
  = (Return (text_envelope (Plain (js "Wallet address is CWALLET"))), world_of alice_store).
Proof.
  apply (getWallet_answers_with_address demo (js "alice") (js "CWALLET") (js "SALICE")
                                        (world_of alice_store)).
  - simpl. repeat (constructor; [simpl; intuition discriminate|]). constructor.
  - simpl. left. reflexivity.
Defined.

(** X17. The [setWallet] tool answers "Wallet address set to <wallet>" in
    every case and makes no outbound call.  When the address is malformed
    nothing has changed; when the table already has a record under the
    login as the column stores it, the store is unchanged, so the earlier
    address and secret stay; otherwise the lookup now returns the address
    as [Address] prints it with a secret drawn from the worker's entropy. *)
Theorem setWallet_reports_success (ext : Collaborators) (login wallet : jsstring)
        (w : World) :
  fst (setWallet_handler ext login wallet w)
  = Return (text_envelope (Plain (js "Wallet address set to " ++ wallet))) /\
  calls (snd (setWallet_handler ext login wallet w)) = calls w /\
  tools (snd (setWallet_handler ext login wallet w)) = tools w /\
  contracts (store (snd (setWallet_handler ext login wallet w))) = contracts (store w) /\
  (forall e, Address_toString ext wallet = Throw e ->
             snd (setWallet_handler ext login wallet w) = w) /\
  (forall address,
      Address_toString ext wallet = Return address ->
      (In (affinity ext login) (map a_login (addresses (store w))) ->
       store (snd (setWallet_handler ext login wallet w)) = store w) /\
      (~ In (affinity ext login) (map a_login (addresses (store w))) ->
       getAddress ext login (store (snd (setWallet_handler ext login wallet w)))
       = Return (address, Keypair_random_secret ext (entropy w)))).
Proof.
  unfold setWallet_handler, bind, not_awaited, stub_setAddress, ret, setAddress.
  destruct (Address_toString ext wallet) as [a|e]; simpl.
  - split; [reflexivity|]. split; [reflexivity|]. split; [reflexivity|].
    split; [|split].
    + unfold insert_or_ignore_address.
      destruct (existsb _ (addresses (store w))); reflexivity.
    + intros e He. discriminate He.
    + intros address H. injection H as <-. unfold insert_or_ignore_address. simpl. split.
      * intros Hin.
        destruct (existsb (fun r => sql_eqb (a_login r) (affinity ext login))
                          (addresses (store w)))
          eqn:E; [reflexivity|].
        apply login_absent in E. contradiction.
      * intros Hnotin. pose proof Hnotin as E. apply login_absent in E.
        rewrite E. unfold getAddress. simpl.
        rewrite filter_app. simpl. rewrite sql_eqb_refl.
        assert (Hf : filter (fun r => sql_eqb (a_login r) (affinity ext login))
                            (addresses (store w)) = []).
        { apply filter_none_login. intros row Hrow Heq.
          apply Hnotin. rewrite <- Heq. apply in_map. exact Hrow. }
        rewrite Hf. reflexivity.
  - split; [reflexivity|]. split; [reflexivity|]. split; [reflexivity|].
    split; [reflexivity|]. split; [reflexivity|].
    intros address H. discriminate H.
Qed.

(** X18. The [removeContractAddress] tool always answers with its success
    message and makes no outbound call.  When the address is malformed
    nothing has changed; otherwise the address is no longer in the user's
    list, and the wallet records are untouched. *)
Theorem removeContractAddress_reports_success (ext : Collaborators)
        (login address : jsstring) (w : World) :
  fst (removeContractAddress_handler ext login address w)
  = Return (text_envelope (Plain (js "Success! Now reload to see your new tools"))) /\
  calls (snd (removeContractAddress_handler ext login address w)) = calls w /\
  addresses (store (snd (removeContractAddress_handler ext login address w)))
  = addresses (store w) /\
  entropy (snd (removeContractAddress_handler ext login address w)) = entropy w /\
  (forall e, Address_toString ext address = Throw e ->
             snd (removeContractAddress_handler ext login address w) = w) /\
  (forall contract,
      Address_toString ext address = Return contract ->
      ~ In contract
           (map snd (getContracts ext
                       login
                       (store (snd (removeContractAddress_handler ext login address w)))))).
Proof.
  unfold removeContractAddress_handler, bind, not_awaited, stub_removeContract,
    with_store, ret, removeContract.
  destruct (Address_toString ext address) as [c|e]; simpl.
  - split; [reflexivity|]. split; [reflexivity|]. split; [reflexivity|].
    split; [reflexivity|]. split; [intros e He; discriminate He|].
    intros contract H. injection H as <-. intros Hin.
    apply tracked_address in Hin. simpl in Hin.
    apply in_map_iff in Hin. destruct Hin as [r [Hk Hin]].
    apply filter_In in Hin. destruct Hin as [_ Hneg].
    apply contract_key_match in Hk. rewrite Hk in Hneg. discriminate.
  - split; [reflexivity|]. split; [reflexivity|]. split; [reflexivity|].
    split; [reflexivity|]. split; [reflexivity|].
    intros contract H. discriminate H.
Qed.

Lemma insert_or_ignore_contract_tracked (ext : Collaborators)
      (login contract : jsstring) (name : SqlValue) (st : Store) :
  In contract
     (map snd (getContracts ext
                 login
                 (insert_or_ignore_contract
                    {| c_login := affinity ext login; c_name := name;
                       c_address := contract |} st))).
Proof.
  apply tracked_address. unfold insert_or_ignore_contract. simpl.
  destruct (existsb (fun r => sql_eqb (c_login r) (affinity ext login)
                              && jsstring_eqb (c_address r) contract) (contracts st)) eqn:E.
  - apply existsb_exists in E. destruct E as [r [Hr Hm]].
    apply contract_key_match in Hm. rewrite <- Hm. apply in_map. exact Hr.
  - simpl. rewrite map_app. apply in_or_app. right. left. reflexivity.
Qed.

(** X19. For a user with a wallet, [setContractAddress] with a well-formed
    address answers with the signer link built from the public key of the
    user's stored secret, and afterwards the contract is in the user's
    list, which is what [getContractAddresses] then returns.  The wallet
    records are untouched and no outbound call is made. *)
Theorem setContractAddress_tracks (ext : Collaborators)
        (login name address contract wallet sk pk : jsstring) (w : World) :
  getAddress ext login (store w) = Return (wallet, sk) ->
  Address_toString ext address = Return contract ->
  Keypair_publicKey ext sk = Return pk ->
  exists w',
    setContractAddress_handler ext login name address w
    = (Return
         (text_envelope
            (Stringify
               (JObj
                  [(js "message", JStr (js "Success! Now reload to see your new tools"));
                   (js "instructions",
                    JStr (js "Open the link to add a policy signer to sign transactions for this "
                          ++ address ++ js " contract"));
                   (js "link",
                    JStr (js "https://superpeach.xyz/add-signer?publicKey=" ++ pk
                          ++ js "&signerLimits=" ++ address))]))),
       w') /\
    In contract (map snd (getContracts ext login (store w'))) /\
    addresses (store w') = addresses (store w) /\
    calls w' = calls w /\
    getContractAddresses_handler ext login w'
    = (Return (text_envelope (Stringify (JPairs (getContracts ext login (store w'))))), w').
Proof.
  intros Hw Ha Hk.
  unfold setContractAddress_handler, bind. rewrite stub_getAddress_spec, Hw. simpl.
  unfold stub_addContract, with_store, addContract. rewrite Ha. simpl.
  unfold lift. rewrite Hk. simpl. unfold ret.
  eexists. split; [reflexivity|]. simpl. split; [|split; [|split]].
  - apply insert_or_ignore_contract_tracked.
  - unfold insert_or_ignore_contract.
    destruct (existsb _ (contracts (store w))); reflexivity.
  - reflexivity.
  - unfold getContractAddresses_handler, bind. rewrite stub_getContracts_spec. reflexivity.
Qed.

Lemma setContractAddress_tracks_witness :
  exists w',
    snd (setContractAddress_handler demo (js "alice") (js "Other") (js "COTHER")
                                    (world_of alice_store)) = w' /\
    In (js "COTHER") (map snd (getContracts demo (js "alice") (store w'))).
Proof.
  destruct (setContractAddress_tracks demo (js "alice") (js "Other") (js "COTHER")
              (js "COTHER") (js "CWALLET") (js "SALICE") (js "GSALICE")
              (world_of alice_store))
    as [w' [H1 [H2 _]]]; try reflexivity.
  exists w'. rewrite H1. split; [reflexivity | exact H2].
Defined.

Lemma deployToken_handler_spec (ext : Collaborators) (login : jsstring)
      (name symbol : jsstring) (initial_supply cap : Z) (w : World) :
  deployToken_handler ext login name symbol initial_supply cap w =
  match getAddress ext login (store w) with
  | Throw e => (Return (text_envelope (Stringify (JErr e))), w)
  | Return (address, _) =>
      match deployNewFungiblePausableToken ext address name symbol initial_supply cap w with
      | (Return res, w') => (Return (text_envelope (Stringify res)), w')
      | (Throw e, w') => (Return (text_envelope (Stringify (JErr e))), w')
      end
  end.
Proof.
  unfold deployToken_handler, try_catch, bind. rewrite stub_getAddress_spec.
  destruct (getAddress ext login (store w)) as [[address sk]|e]; simpl; [|reflexivity].
  destruct (deployNewFungiblePausableToken ext address name symbol initial_supply cap w)
    as [[res|e] w']; reflexivity.
Qed.

Lemma deploy_same_session (ext : Collaborators) (owner name symbol : jsstring)
      (initial_supply cap : Z) (w : World) :
  same_session (snd (deployNewFungiblePausableToken ext owner name symbol
                       initial_supply cap w)) w.
Proof.
  rewrite deployNewFungiblePausableToken_spec. cbv zeta.
  destruct (Client_deploy ext _ _) as [at0|e]; [|repeat split].
  destruct (signAuthEntries ext at0 _) as [at1|e]; [|repeat split].
  destruct (server_send ext at1) as [res|e]; [|repeat split].
  destruct (encodeContract ext (retval at1)); repeat split.
Qed.

(** X20. When the store has no wallet record under the login as the
    column stores it, [deployToken] answers with the error envelope of the
    failed lookup and makes no outbound call.  When the lookup returns a
    record, the owner of the deployed token is the address of that record:
    the deployment is asked for with that owner, the given name, symbol,
    supply and cap, and 0 decimals.  Either way the store is not written. *)
Theorem deployToken_uses_the_wallet (ext : Collaborators) (login : jsstring)
        (name symbol : jsstring) (initial_supply cap : Z) (w : World) :
  same_session (snd (deployToken_handler ext login name symbol initial_supply cap w)) w /\
  ((forall row, In row (addresses (store w)) -> a_login row <> affinity ext login) ->
   deployToken_handler ext login name symbol initial_supply cap w
   = (Return (text_envelope (Stringify (JErr (OneRowExpected 0)))), w)) /\
  (forall address sk,
      getAddress ext login (store w) = Return (address, sk) ->
      exists rest,
        calls (snd (deployToken_handler ext login name symbol initial_supply cap w))
        = calls w ++
          SimulateDeploy {| owner := address; name := name; symbol := symbol;
                            decimals := 0; initial_supply := initial_supply;
                            cap := cap |} (publicKey ext) :: rest).
Proof.
  rewrite deployToken_handler_spec. split; [|split].
  - destruct (getAddress ext login (store w)) as [[address sk]|e]; [|repeat split].
    pose proof (deploy_same_session ext address name symbol initial_supply cap w) as H.
    destruct (deployNewFungiblePausableToken ext address name symbol initial_supply cap w)
      as [[res|e] w']; exact H.
  - intros Hnone. rewrite (getAddress_without_wallet ext login (store w) Hnone). reflexivity.
  - intros address sk ->.
    rewrite deployNewFungiblePausableToken_spec. cbv zeta.
    destruct (Client_deploy ext _ _) as [at0|e]; [|exists []; reflexivity].
    destruct (signAuthEntries ext at0 _) as [at1|e]; [|eexists; reflexivity].
    destruct (server_send ext at1) as [res|e]; [|eexists; reflexivity].
    destruct (encodeContract ext (retval at1)); eexists; reflexivity.
Qed.

(** X21. Whatever the collaborators do, a transaction that the deployment
    routine sends to the relay is the assembled deployment with the
    deployer's authorization signed.  And the routine can fail after it
    has submitted: when the relay has accepted the transaction but the
    simulated return value is not a contract address, it throws. *)
Theorem deployment_submits_only_signed (ext : Collaborators)
        (owner name symbol : jsstring) (initial_supply cap : Z) (w : World)
        (tx : AssembledTransaction) :
  In (RelaySend tx)
     (calls (snd (deployNewFungiblePausableToken ext owner name symbol
                    initial_supply cap w))) ->
  (In (RelaySend tx) (calls w) \/
   exists at0,
     Client_deploy ext {| owner := owner; name := name; symbol := symbol; decimals := 0;
                          initial_supply := initial_supply; cap := cap |} (publicKey ext)
     = Return at0 /\
     signAuthEntries ext at0 (publicKey ext) = Return tx) /\
  (forall res e,
      ~ In (RelaySend tx) (calls w) ->
      server_send ext tx = Return res ->
      encodeContract ext (retval tx) = Throw e ->
      fst (deployNewFungiblePausableToken ext owner name symbol initial_supply cap w)
      = Throw e).
Proof.
  rewrite deployNewFungiblePausableToken_spec. cbv zeta.
  destruct (Client_deploy ext _ _) as [at0|e0] eqn:Hd.
  2:{ simpl. intros Hin. apply in_app_or in Hin.
      destruct Hin as [Hin|[Hin|[]]]; [|discriminate Hin].
      split; [left; exact Hin | intros ? ? Hn; contradiction]. }
  destruct (signAuthEntries ext at0 _) as [at1|e1] eqn:Hs.
  2:{ simpl. intros Hin. apply in_app_or in Hin.
      destruct Hin as [Hin|[Hin|[Hin|[]]]]; try discriminate Hin.
      split; [left; exact Hin | intros ? ? Hn; contradiction]. }
  assert (Hcases : In (RelaySend tx)
                      (calls w ++ [SimulateDeploy
                                     {| owner := owner; name := name; symbol := symbol;
                                        decimals := 0; initial_supply := initial_supply;
                                        cap := cap |} (publicKey ext);
                                   SignAuthEntries (publicKey ext); RelaySend at1]) ->
                   In (RelaySend tx) (calls w) \/ tx = at1).
  { intros Hin. apply in_app_or in Hin.
    destruct Hin as [Hin|[Hin|[Hin|[Hin|[]]]]]; try discriminate Hin; [left; exact Hin|].
    right. injection Hin as <-. reflexivity. }
  destruct (server_send ext at1) as [res|e2] eqn:Hr;
    [destruct (encodeContract ext (retval at1)) as [cid|e3] eqn:He|];
    simpl; intros Hin; destruct (Hcases Hin) as [Hold | ->].
  all: split;
    [ first [left; exact Hold | right; exists at0; split; [reflexivity | exact Hs]]
    | intros res' e' Hn Hr' He'; try contradiction; simpl; congruence ].
Qed.

Lemma deployment_submits_only_signed_witness :
  exists at0,
    Client_deploy demo {| owner := js "CWALLET"; name := js "Gold"; symbol := js "GLD";
                          decimals := 0; initial_supply := 10; cap := 100 |}
                  (publicKey demo) = Return at0 /\
    signAuthEntries demo at0 (publicKey demo)
    = Return {| isReadCall := false; needsNonInvokerSigningBy := [];
                retval := js "CNEW"; signedBy := [js "GDEPLOYER"] |}.
Proof.
  destruct (deployment_submits_only_signed demo (js "CWALLET") (js "Gold") (js "GLD")
              10 100 fresh_world
              {| isReadCall := false; needsNonInvokerSigningBy := [];
                 retval := js "CNEW"; signedBy := [js "GDEPLOYER"] |})
    as [[H | H] _].
  - simpl. right. right. left. reflexivity.
  - destruct H.
  - exact H.
Defined.

(** * What a tool call can change *)

Lemma contract_function_handler_session (ext : Collaborators) (login : jsstring)
      (contractId func_name : jsstring) (params : list ScVal) (w : World) :
  same_session (snd (contract_function_handler ext login contractId func_name params w)) w.
Proof.
  split_handler ext login at_ json; repeat split.
Qed.

Lemma setContractAddress_store (ext : Collaborators) (login name address : jsstring)
      (w : World) :
  calls (snd (setContractAddress_handler ext login name address w)) = calls w /\
  tools (snd (setContractAddress_handler ext login name address w)) = tools w /\
  entropy (snd (setContractAddress_handler ext login name address w)) = entropy w /\
  (store (snd (setContractAddress_handler ext login name address w)) = store w \/
   addContract ext login name address (store w)
   = Return (store (snd (setContractAddress_handler ext login name address w)))).
Proof.
  unfold setContractAddress_handler, bind. rewrite stub_getAddress_spec.
  destruct (getAddress ext login (store w)) as [[a sk]|e]; simpl; [|auto].
  unfold stub_addContract, with_store.
  destruct (addContract ext login name address (store w)) as [st'|e] eqn:E; simpl;
    [|auto].
  unfold lift. destruct (Keypair_publicKey ext sk); simpl; auto.
Qed.

Lemma removeContractAddress_store (ext : Collaborators) (login address : jsstring)
      (w : World) :
  calls (snd (removeContractAddress_handler ext login address w)) = calls w /\
  tools (snd (removeContractAddress_handler ext login address w)) = tools w /\
  entropy (snd (removeContractAddress_handler ext login address w)) = entropy w /\
  (store (snd (removeContractAddress_handler ext login address w)) = store w \/
   removeContract ext login address (store w)
   = Return (store (snd (removeContractAddress_handler ext login address w)))).
Proof.
  unfold removeContractAddress_handler, bind, not_awaited, stub_removeContract, with_store.
  destruct (removeContract ext login address (store w)) as [st'|e] eqn:E; simpl; auto.
Qed.

Lemma setWallet_store (ext : Collaborators) (login wallet : jsstring) (w : World) :
  calls (snd (setWallet_handler ext login wallet w)) = calls w /\
  tools (snd (setWallet_handler ext login wallet w)) = tools w /\
  (store (snd (setWallet_handler ext login wallet w)) = store w \/
   setAddress ext login wallet (entropy w) (store w)
   = Return (store (snd (setWallet_handler ext login wallet w)))).
Proof.
  unfold setWallet_handler, bind, not_awaited, stub_setAddress.
  destruct (setAddress ext login wallet (entropy w) (store w)) as [st'|e] eqn:E;
    simpl; auto.
Qed.

Lemma invoke_changes (ext : Collaborators) (login : jsstring) (i : Invocation)
        (w : World) :
  tools (snd (invoke ext login i w)) = tools w /\
  (writes_store (handler_of i) = false -> store (snd (invoke ext login i w)) = store w) /\
  (handler_of i <> SetWallet -> entropy (snd (invoke ext login i w)) = entropy w) /\
  (reaches_ledger (handler_of i) = false -> calls (snd (invoke ext login i w)) = calls w).
Proof.
  destruct i as [cid fn params | name address | | address | wallet | | name symbol supply cap];
    cbn [invoke handler_of writes_store reaches_ledger].
  - destruct (contract_function_handler_session ext login cid fn params w)
      as [Hs [He Ht]].
    repeat split; auto. discriminate.
  - destruct (setContractAddress_store ext login name address w) as [Hc [Ht [He _]]].
    repeat split; auto. discriminate.
  - unfold getContractAddresses_handler, bind. rewrite stub_getContracts_spec.
    repeat split.
  - destruct (removeContractAddress_store ext login address w) as [Hc [Ht [He _]]].
    repeat split; auto. discriminate.
  - destruct (setWallet_store ext login wallet w) as [Hc [Ht _]].
    repeat split; auto; try discriminate. intros H. contradiction.
  - rewrite getWallet_handler_spec.
    destruct (getAddress ext login (store w)) as [[a sk]|e]; repeat split.
  - rewrite deployToken_handler_spec.
    assert (Hs : same_session
                   (snd match getAddress ext login (store w) with
                        | Return (address, _) =>
                            match deployNewFungiblePausableToken ext address name symbol
                                                                 supply cap w with
                            | (Return res, w') =>
                                (Return (text_envelope (Stringify res)), w')
                            | (Throw e, w') =>
                                (Return (text_envelope (Stringify (JErr e))), w')
                            end
                        | Throw e => (Return (text_envelope (Stringify (JErr e))), w)
                        end) w).
    { destruct (getAddress ext login (store w)) as [[address sk]|e]; [|repeat split].
      pose proof (deploy_same_session ext address name symbol supply cap w) as H.
      destruct (deployNewFungiblePausableToken ext address name symbol supply cap w)
        as [[res|e] w']; exact H. }
    destruct Hs as [Hs [He Ht]]. repeat split; auto. discriminate.
Qed.

(** X22. What a tool call can change.  No call changes the registered
    tools.  Only [setContractAddress], [removeContractAddress] and
    [setWallet] can change the store, and only [setWallet] draws entropy;
    only the contract tools and [deployToken] make outbound calls. *)
Theorem invoke_effects (ext : Collaborators) (login : jsstring) (i : Invocation)
        (w : World) :
  tools (snd (invoke ext login i w)) = tools w /\
  (writes_store (handler_of i) = false -> store (snd (invoke ext login i w)) = store w) /\
  (handler_of i <> SetWallet -> entropy (snd (invoke ext login i w)) = entropy w) /\
  (reaches_ledger (handler_of i) = false -> calls (snd (invoke ext login i w)) = calls w).
Proof. exact (invoke_changes ext login i w). Qed.

(** X23. Every tool call keeps the key constraints of the store: after
    any call there is still at most one wallet record per user and at
    most one tracked row per (user, address). *)
Theorem invoke_keeps_keys_unique (ext : Collaborators) (login : jsstring)
        (i : Invocation) (w : World) :
  keys_unique (store w) ->
  keys_unique (store (snd (invoke ext login i w))).
Proof.
  intros Hk.
  destruct (store_ops_keep_keys ext (store w) Hk) as [_ [Hadd [Hrem Hset]]].
  destruct (writes_store (handler_of i)) eqn:E.
  - destruct i as [cid fn params | name address | | address | wallet | | name symbol supply cap];
      try discriminate E; cbn [invoke].
    + destruct (setContractAddress_store ext login name address w) as [_ [_ [_ [->|H]]]];
        [exact Hk | exact (Hadd _ _ _ _ H)].
    + destruct (removeContractAddress_store ext login address w) as [_ [_ [_ [->|H]]]];
        [exact Hk | exact (Hrem _ _ _ H)].
    + destruct (setWallet_store ext login wallet w) as [_ [_ [->|H]]];
        [exact Hk | exact (Hset _ _ _ _ H)].
  - destruct (invoke_changes ext login i w) as [_ [Hs _]]. rewrite (Hs E). exact Hk.
Qed.

Lemma invoke_keeps_keys_unique_witness :
  keys_unique (store (snd (invoke demo (js "bob") (CallSetWallet (js "GBOB"))
                                  (world_of alice_store)))).
Proof.
  apply (invoke_keeps_keys_unique demo (js "bob") (CallSetWallet (js "GBOB"))
                                  (world_of alice_store)).
  split; simpl; repeat (constructor; [simpl; intuition discriminate|]); constructor.
Defined.

(** * Further properties of session initialization *)

Lemma register_contracts_app (ext : Collaborators) (cs1 cs2 : list (SqlValue * jsstring))
      (w : World) :
  register_contracts ext (cs1 ++ cs2) w =
  match register_contracts ext cs1 w with
  | (Return _, w') => register_contracts ext cs2 w'
  | (Throw e, w') => (Throw e, w')
  end.
Proof.
  revert w. induction cs1 as [|entry cs1 IH]; intros w; [reflexivity|].
  simpl app. rewrite !register_contracts_cons.
  destruct (register_contract ext entry w) as [[[]|e] w']; [apply IH | reflexivity].
Qed.

(** X24. A tracked contract whose code is fetched but cannot be decoded
    stops session initialization: [init] throws the decoder's exception.
    The contracts before it have their tools registered, the contracts
    after it are not even fetched, and the fixed tools are not registered. *)
Theorem init_stops_at_undecodable_contract (ext : Collaborators) (login : jsstring)
        (w : World) (pre post : list (SqlValue * jsstring)) (bad : SqlValue * jsstring)
        (wasm : jsstring) (e : Exn) :
  getContracts ext login (store w) = pre ++ bad :: post ->
  Forall (fun entry => exists funcs, descriptor ext (snd entry) = Return funcs) pre ->
  NoDup (map tool_name (tools w ++ flat_map (tools_of ext) pre)) ->
  getContractWasmByContractId ext (snd bad) = Return wasm ->
  Client_fromWasm ext wasm = Throw e ->
  init ext login w
  = (Throw e,
     add_tools (flat_map (tools_of ext) pre)
               (add_calls (map (fun entry => GetContractWasm (snd entry)) (pre ++ [bad])) w)).
Proof.
  intros Htracked Hpre Hnd Hfetch Hdecode.
  rewrite init_spec, Htracked, register_contracts_app.
  rewrite (register_contracts_ok ext pre w Hpre Hnd).
  destruct bad as [cn id]. simpl in Hfetch.
  rewrite register_contracts_cons, register_contract_spec.
  unfold descriptor. rewrite Hfetch, Hdecode.
  rewrite add_tools_calls, add_calls_app, map_app. reflexivity.
Qed.

Lemma init_stops_at_undecodable_contract_witness :
  init (flaky true false false false) (js "alice") (world_of alice_store)
  = (Throw (DecodeError (js "bad wasm")),
     add_calls [GetContractWasm (js "CBROKEN"); GetContractWasm (js "CTOKEN")]
               (world_of alice_store)).
Proof.
  apply (init_stops_at_undecodable_contract (flaky true false false false) (js "alice")
           (world_of alice_store) [(SqlText (js "Broken"), js "CBROKEN")] []
           (SqlText (js "Token"), js "CTOKEN") (js "CTOKEN")
           (DecodeError (js "bad wasm"))).
  - reflexivity.
  - constructor; [|constructor]. exists []. reflexivity.
  - constructor.
  - reflexivity.
  - reflexivity.
Defined.

Lemma register_all_session (ts : list Tool) (w : World) :
  store (snd (register_all ts w)) = store w /\
  entropy (snd (register_all ts w)) = entropy w /\
  calls (snd (register_all ts w)) = calls w.
Proof.
  destruct (register_all_grows ts w) as [new [-> _]]. repeat split.
Qed.

Lemma register_contracts_fetches (ext : Collaborators) (cs : list (SqlValue * jsstring))
      (w : World) :
  store (snd (register_contracts ext cs w)) = store w /\
  entropy (snd (register_contracts ext cs w)) = entropy w /\
  exists n,
    calls (snd (register_contracts ext cs w))
    = calls w ++ firstn n (map (fun entry => GetContractWasm (snd entry)) cs) /\
    (fst (register_contracts ext cs w) = Return tt -> n = List.length cs).
Proof.
  revert w. induction cs as [|[cn id] rest IH]; intros w.
  - simpl. repeat split. exists 0. simpl. rewrite app_nil_r. auto.
  - rewrite register_contracts_cons, register_contract_spec.
    destruct (descriptor ext id) as [funcs|e].
    + destruct (register_all_session (synthesized (read ext cn) id funcs)
                                     (add_calls [GetContractWasm id] w)) as [Hs [He Hc]].
      destruct (register_all (synthesized (read ext cn) id funcs)
                             (add_calls [GetContractWasm id] w)) as [[[]|e] w1];
        simpl in Hs, He, Hc.
      * destruct (IH w1) as [Hs' [He' [n [Hc' Hn]]]].
        split; [congruence|]. split; [congruence|].
        exists (S n). split.
        -- rewrite Hc', Hc. simpl. rewrite <- app_assoc. reflexivity.
        -- intros Hok. simpl. f_equal. apply Hn, Hok.
      * simpl. split; [exact Hs|]. split; [exact He|].
        exists 1. split; [rewrite Hc; reflexivity | discriminate].
    + simpl. repeat split. exists 1. split; [reflexivity | discriminate].
Qed.

(** X25. Session initialization only reads: it leaves the store and the
    entropy as they were, and its outbound calls are code fetches and
    nothing else, one per tracked contract, in the order of the user's
    list, up to the contract at which it stops; when it succeeds every
    tracked contract has been fetched once. *)
Theorem init_only_fetches (ext : Collaborators) (login : jsstring) (w : World) :
  store (snd (init ext login w)) = store w /\
  entropy (snd (init ext login w)) = entropy w /\
  exists n,
    calls (snd (init ext login w))
    = calls w ++ firstn n (map (fun entry => GetContractWasm (snd entry))
                               (getContracts ext login (store w))) /\
    (fst (init ext login w) = Return tt ->
     n = List.length (getContracts ext login (store w))).
Proof.
  rewrite init_spec.
  destruct (register_contracts_fetches ext (getContracts ext login (store w)) w)
    as [Hs [He [n [Hc Hn]]]].
  destruct (register_contracts ext (getContracts ext login (store w)) w) as [[[]|e] w1];
    simpl in Hs, He, Hc, Hn.
  - destruct (register_all_session fixed_tools w1) as [Hs' [He' Hc']].
    split; [congruence|]. split; [congruence|].
    exists n. split; [congruence|]. intros _. apply Hn. reflexivity.
  - simpl. split; [exact Hs|]. split; [exact He|].
    exists n. split; [exact Hc | discriminate].
Qed.

(** * Users as the store knows them *)

(** X26. The worker knows its user by the login only through the store,
    and the store by the value its [login] column holds for it.  Two
    logins with the same stored value are therefore one user to every
    store method, to every tool call and to session initialization: they
    share the wallet record with its signing secret, and the tracked
    contracts. *)
Theorem logins_of_equal_value_share_records (ext : Collaborators)
        (login login' : jsstring) :
  affinity ext login = affinity ext login' ->
  (forall st, getAddress ext login st = getAddress ext login' st) /\
  (forall st, getContracts ext login st = getContracts ext login' st) /\
  (forall wallet entropy st,
      setAddress ext login wallet entropy st = setAddress ext login' wallet entropy st) /\
  (forall name address st,
      addContract ext login name address st = addContract ext login' name address st) /\
  (forall address st,
      removeContract ext login address st = removeContract ext login' address st) /\
  (forall i w, invoke ext login i w = invoke ext login' i w) /\
  (forall w, init ext login w = init ext login' w).
Proof.
  intros Hsame.
  split; [intros st; unfold getAddress; rewrite Hsame; reflexivity|].
  split; [intros st; unfold getContracts; rewrite Hsame; reflexivity|].
  split; [intros wallet entropy st; unfold setAddress; rewrite Hsame; reflexivity|].
  split; [intros name address st; unfold addContract; rewrite Hsame; reflexivity|].
  split; [intros address st; unfold removeContract; rewrite Hsame; reflexivity|].
  split.
  - intros i w.
    destruct i; unfold invoke, contract_function_handler, setContractAddress_handler,
      getContractAddresses_handler, removeContractAddress_handler, setWallet_handler,
      getWallet_handler, deployToken_handler, stub_getAddress, stub_getContracts,
      stub_addContract, stub_removeContract, stub_setAddress, getAddress, getContracts,
      addContract, removeContract, setAddress;
      rewrite Hsame; reflexivity.
  - intros w. unfold init, stub_getContracts, getContracts. rewrite Hsame. reflexivity.
Qed.

Lemma logins_of_equal_value_share_records_witness :
  invoke demo (js "007") CallGetWallet
         (snd (invoke demo (js "7") (CallSetWallet (js "GSEVEN")) fresh_world))
  = (Return (text_envelope (Plain (js "Wallet address is GSEVEN"))),
     snd (invoke demo (js "7") (CallSetWallet (js "GSEVEN")) fresh_world)).
Proof.
  eapply eq_trans.
  - apply (logins_of_equal_value_share_records demo (js "007") (js "7")). reflexivity.
  - reflexivity.
Defined.

(** X27. [addContract] with a well-formed address inserts if absent on the
    stored login and the address: when the user already tracks the address
    the store is unchanged, whatever name is given; otherwise one row is
    added, with the name as the column holds it, and nothing else changes.
    Either way a second call for the same address, under any name,
    changes nothing.  On an empty registry the user's list is then the one
    entry of that address, under the given name when the column keeps that
    name as text. *)
Theorem addContract_inserts_once (ext : Collaborators)
        (login name address contract : jsstring) (st : Store) :
  Address_toString ext address = Return contract ->
  exists st1,
    addContract ext login name address st = Return st1 /\
    (In (affinity ext login, contract) (map contract_key (contracts st)) -> st1 = st) /\
    (~ In (affinity ext login, contract) (map contract_key (contracts st)) ->
     contracts st1
     = contracts st ++ [ {| c_login := affinity ext login; c_name := affinity ext name;
                            c_address := contract |} ]) /\
    addresses st1 = addresses st /\
    (forall name', addContract ext login name' address st1 = Return st1) /\
    (contracts st = [] ->
     getContracts ext login st1 = [(affinity ext name, contract)] /\
     (affinity ext name = SqlText name ->
      getContracts ext login st1 = [(SqlText name, contract)])).
Proof.
  intros Haddr.
  assert (Hrun : forall name' st',
             addContract ext login name' address st'
             = Return (insert_or_ignore_contract
                         {| c_login := affinity ext login; c_name := affinity ext name';
                            c_address := contract |} st')).
  { intros name' st'. unfold addContract. rewrite Haddr. reflexivity. }
  rewrite Hrun. unfold insert_or_ignore_contract at 1. simpl.
  destruct (existsb (fun r => sql_eqb (c_login r) (affinity ext login)
                              && jsstring_eqb (c_address r) contract)
                    (contracts st)) eqn:E.
  - assert (Hin : In (affinity ext login, contract) (map contract_key (contracts st))).
    { apply existsb_exists in E. destruct E as [r [Hr Hm]].
      apply contract_key_match in Hm. rewrite <- Hm. apply in_map, Hr. }
    exists st. split; [reflexivity|]. split; [reflexivity|].
    split; [intros Hout; contradiction|]. split; [reflexivity|]. split.
    + intros name'. rewrite Hrun. unfold insert_or_ignore_contract. simpl.
      rewrite E. reflexivity.
    + intros Hempty. rewrite Hempty in E. discriminate E.
  - apply contract_key_absent in E.
    eexists. split; [reflexivity|]. simpl.
    split; [intros Hin; contradiction|]. split; [reflexivity|].
    split; [reflexivity|]. split.
    + intros name'. rewrite Hrun. unfold insert_or_ignore_contract. simpl.
      rewrite existsb_app. simpl. rewrite sql_eqb_refl, jsstring_eqb_refl. simpl.
      rewrite orb_true_r. reflexivity.
    + intros Hempty.
      assert (Hlist : getContracts ext login
                        {| addresses := addresses st;
                           contracts := contracts st ++
                             [ {| c_login := affinity ext login;
                                  c_name := affinity ext name;
                                  c_address := contract |} ] |}
                      = [(affinity ext name, contract)]).
      { unfold getContracts. simpl. rewrite Hempty. simpl. rewrite sql_eqb_refl.
        rewrite (Permutation_length_1_inv
                   (Permutation_sym (query_order_permutes ext _))).
        reflexivity. }
      split; [exact Hlist|]. intros Htext. rewrite <- Htext. exact Hlist.
Qed.

Lemma addContract_inserts_once_witness :
  exists st1,
    addContract demo (js "u1") (js "Token") (js "CTOKEN") empty_store = Return st1 /\
    getContracts demo (js "u1") st1 = [(SqlText (js "Token"), js "CTOKEN")] /\
    addContract demo (js "u1") (js "Token") (js "CTOKEN") st1 = Return st1.
Proof.
  destruct (addContract_inserts_once demo (js "u1") (js "Token") (js "CTOKEN")
                                     (js "CTOKEN") empty_store)
    as [st1 [H1 [_ [_ [_ [H2 H3]]]]]].
  - reflexivity.
  - exists st1. split; [exact H1|]. split; [|apply H2].
    apply H3; reflexivity.
Defined.
